(** * SeqViewerContainer: selection, central index and layout calculators

    A shallow embedding of [src/SeqViewerContainer.tsx] (seqviz).

    Modelling conventions:
    - JavaScript objects that are spread, destructured or indexed by a
      computed key ([Selection], [state.centralIndex]) are finite maps from
      property names to values ([gmap string _]);
    - base-pair indices ([start], [end], the central indices) are integers
      and are modelled by [Z]; pixel sizes and zoom levels are IEEE-754
      binary64 numbers and are modelled by Rocq's primitive [float], whose
      operations are the ones JavaScript uses;
    - the component ([this]) is a record holding [props], [state] and a log
      of the observable effects ([setState] calls and [onSelection]
      notifications); methods run in a small state-and-exception monad, in
      which [setState] takes effect at once: this is a host that applies
      each update before the next call.  A host that defers updates, so
      that a call made before the flush still reads the old [this.state],
      is modelled beside it ([Deferred]) where the difference matters;
    - props are typed as [SeqViewerContainerProps] declares them: an
      optional prop is an [option], the required callback [onSelection] is
      a function value;
    - [props.testSize] is a caller-owned object: the layout calculators
      alias it (they do not copy it), so its contents are part of the
      mutable world and are written back by the calculators;
    - [Math.exp], [Math.log] and [**], which ECMAScript leaves
      implementation-approximated, are parameters of the circular
      calculator; every other numeric operation is computed. *)

From Stdlib Require Import ZArith Lia Bool Ascii String.
From Stdlib Require Import Floats.
From stdpp Require Import gmap strings.

Set Warnings "-inexact-float,-abstract-large-number".
Local Open Scope Z_scope.

(* ===================================================================== *)
(** * The embedding *)

(** ** JavaScript values and objects *)

Inductive JsVal : Type :=
  | VUndefined
  | VNull
  | VBool (b : bool)
  | VNum (n : Z)
  | VStr (s : string)
  | VRef (id : positive). (* an object or DOM node known only by identity *)

Abbreviation JsObj := (gmap string JsVal).

(** [o.k]: reading a missing property yields [undefined]. *)
Definition getProp (o : JsObj) (k : string) : JsVal :=
  default VUndefined (o !! k).

(** [typeof v === "undefined"] *)
Definition typeof_undefined (v : JsVal) : bool :=
  match v with VUndefined => true | _ => false end.

(** [!!v] *)
Definition truthy (v : JsVal) : bool :=
  match v with
  | VUndefined | VNull => false
  | VBool b => b
  | VNum n => negb (n =? 0)
  | VStr s => negb (String.eqb s EmptyString)
  | VRef _ => true
  end.

(** A function value (a callback prop); only its identity is known. *)
Inductive JsFun : Type := Fn (name : string).

(** Every function value is truthy. *)
Definition truthy_fun (f : JsFun) : bool := true.

(** [String.prototype.toLowerCase], on the ASCII range. *)
Definition ascii_toLowerCase (c : ascii) : ascii :=
  let n := nat_of_ascii c in
  if ((65 <=? n) && (n <=? 90))%nat then ascii_of_nat (n + 32) else c.

Fixpoint toLowerCase (s : string) : string :=
  match s with
  | EmptyString => EmptyString
  | String c r => String (ascii_toLowerCase c) (toLowerCase r)
  end.

(** ** Viewer modes *)

(** [viewer: "linear" | "circular" | "both" | "both_flip"] *)
Inductive Viewer : Type := linear | circular | both | both_flip.

Definition viewer_string (v : Viewer) : string :=
  match v with
  | linear => "linear"
  | circular => "circular"
  | both => "both"
  | both_flip => "both_flip"
  end.

Fixpoint startsWith (p s : string) : bool :=
  match p, s with
  | EmptyString, _ => true
  | String a p', String b s' => Ascii.eqb a b && startsWith p' s'
  | String _ _, EmptyString => false
  end.

(** [s.includes(p)] *)
Fixpoint includes (s p : string) : bool :=
  startsWith p s ||
  match s with
  | EmptyString => false
  | String _ s' => includes s' p
  end.

(** ** Props, state and the component *)

Record Size : Type := { height : float; width : float }.

Record Zoom : Type := { zoom_circular : float; zoom_linear : float }.

(** The props the container reads.  [selection] is the optional
    caller-supplied selection, [onSelection] the (required) change
    callback, [testSize] the current contents of the optional forced-size
    object. *)
Record Props : Type := {
  p_seq : string;
  p_seqType : string;
  p_viewer : Viewer;
  p_height : float;
  p_width : float;
  p_testSize : option Size;
  p_zoom : Zoom;
  p_selection : option JsObj;
  p_onSelection : JsFun;
}.

(** [SeqViewerContainerState], without the method reference stored next to
    the two indices. *)
Record State : Type := {
  centralIndex : gmap string Z;
  selection : JsObj;
}.

(** Observable effects of the mutators. *)
Inductive Effect : Type :=
  | SetState (next : State)
  | OnSelection (f : JsFun) (arg : JsObj).

Record Component : Type := {
  props : Props;
  state : State;
  effects : list Effect; (* oldest first *)
}.

Inductive Exn : Type := Error (message : string).

(** ** The method monad: state passing with exceptions *)

Definition M (A : Type) : Type := Component -> (Exn + A) * Component.

#[global] Instance M_ret : MRet M := fun A a c => (inr a, c).
#[global] Instance M_bind : MBind M := fun A B f m c =>
  match m c with
  | (inl e, c') => (inl e, c')
  | (inr a, c') => f a c'
  end.

Definition throw {A} (e : Exn) : M A := fun c => (inl e, c).
Definition getProps : M Props := fun c => (inr (props c), c).
Definition getState : M State := fun c => (inr (state c), c).

(** [this.setState(next)]: the new state replaces the old one and the call
    is recorded. *)
Definition setState (next : State) : M unit := fun c =>
  (inr tt, {| props := props c; state := next; effects := effects c ++ [SetState next] |}).

(** Invoking a callback prop. *)
Definition call (f : JsFun) (arg : JsObj) : M unit := fun c =>
  (inr tt, {| props := props c; state := state c; effects := effects c ++ [OnSelection f arg] |}).

Definition when (b : bool) (m : M unit) : M unit := if b then m else mret tt.

(** Final component of a run, its returned value (if it did not throw),
    and the number of [setState] calls logged. *)
Definition exec {A} (m : M A) (c : Component) : Component := snd (m c).

Definition returned {A} (r : (Exn + A) * Component) : option A :=
  match fst r with inr a => Some a | inl _ => None end.

Definition is_SetState (e : Effect) : bool :=
  match e with SetState _ => true | OnSelection _ _ => false end.

Definition mutations (c : Component) : nat :=
  length (filter (fun e => is_SetState e = true) (effects c)).

Definition notifications (c : Component) : list JsObj :=
  omap (fun e => match e with OnSelection _ arg => Some arg | SetState _ => None end)
       (effects c).

(** ** Central index and selection *)

(** [setCentralIndex = (type, value) => { ... }] *)
Definition setCentralIndex (type : string) (value : Z) : M unit :=
  if negb (String.eqb type "LINEAR") && negb (String.eqb type "CIRCULAR") then
    throw (Error ("Unknown central index type: " ++ type))
  else
    s ← getState;
    if bool_decide (centralIndex s !! toLowerCase type = Some value) then
      mret tt (* nothing changed *)
    else
      setState {| centralIndex := <[toLowerCase type := value]> (centralIndex s);
                  selection := selection s |}.

(** [setSelection = (selection) => { ... }] *)
Definition setSelection (sel : JsObj) : M unit :=
  let rest := delete "ref" (delete "parent" sel) in
  p ← getProps;
  s ← getState;
  when (negb (bool_decide (is_Some (p_selection p))))
       (setState {| centralIndex := centralIndex s; selection := sel |});;
  when (truthy_fun (p_onSelection p)) (call (p_onSelection p) rest).

(** [getSelection = (state, prop?) => { ... }] *)
Definition getSelection (st : JsObj) (prop : option JsObj) : JsObj :=
  match prop with
  | Some p =>
      <["type" := VStr EmptyString]>
        (<["clockwise" := VBool (typeof_undefined (getProp p "clockwise")
                                 || truthy (getProp p "clockwise"))]> p)
  | None => st
  end.

Local Open Scope float_scope.

(** ** JavaScript numbers (IEEE-754 binary64) *)

(** Truthiness of a number: [0], [-0] and [NaN] are falsy. *)
Definition num_truthy (x : float) : bool := negb (is_zero x || is_nan x).

(** Conversion of an integer of magnitude below [2^53], which a binary64
    represents exactly (rounded results and string lengths). *)
Definition float_of_Z (n : Z) : float :=
  if (n <? 0)%Z then - of_uint63 (Uint63.of_Z (- n)) else of_uint63 (Uint63.of_Z n).

(** [Math.min(x, y)] *)
Definition Math_min (x y : float) : float :=
  if is_nan x || is_nan y then nan
  else if x <? y then x
  else if y <? x then y
  else if get_sign x then x else y.

(** [Math.max(x, y)] *)
Definition Math_max (x y : float) : float :=
  if is_nan x || is_nan y then nan
  else if x <? y then y
  else if y <? x then x
  else if get_sign x then y else x.

(** [Math.round(x)]: the integer nearest to [x], ties towards +∞; a result
    of zero keeps the sign of [x].  With [x = ±m·2^e] and [e < 0] the
    result is [floor ((±2m + 2^-e) / 2^(1-e))]. *)
Definition round_half_up (s : bool) (m : positive) (e : Z) : Z :=
  let d := (2 ^ (- e))%Z in
  ((if s then - (2 * Zpos m) else 2 * Zpos m) + d) / (2 * d).

Definition Math_round (x : float) : float :=
  match Prim2SF x with
  | S754_finite s m e =>
      if (0 <=? e)%Z then x
      else
        let n := round_half_up s m e in
        if (n =? 0)%Z then (if s then neg_zero else zero) else float_of_Z n
  | _ => x
  end.

(** [seq.length] as a number (sequences are ASCII, one code unit per
    character). *)
Definition seqLength (seq : string) : float :=
  float_of_Z (Z.of_nat (String.length seq)).

(** ** Linear layout *)

Record LinearLayout : Type := {
  bpsPerBlock : float;
  charWidth : float;
  elementHeight : float;
  lineHeight : float;
  seqFontSize : float;
  l_size : Size;
  l_zoom : float;
}.

(** Body of [linearProps], from the point where [size] is bound.  Of the
    returned object the computed fields are kept ([...this.props] is the
    props themselves); [l_size] is the final contents of the [size]
    object and [l_zoom] the [linear] field of the returned [zoom]. *)
Definition linearLayout (seq seqType : string) (viewer : Viewer) (zoom : float)
    (size : Size) : LinearLayout :=
  (* hack *)
  let size :=
    if includes (viewer_string viewer) "both"
    then {| height := height size; width := width size / 2 |} else size in
  let seqFontSize := Math_min (Math_round (zoom * 0.1 + 9.5)) 18 in
  let bpsPerBlock :=
    let r := Math_round ((width size / seqFontSize) * 1.4) in
    if num_truthy r then r else 1 in
  let bpsPerBlock :=
    if String.eqb seqType "aa" then Math_round (bpsPerBlock / 3) else bpsPerBlock in
  let bpsPerBlock :=
    if zoom <=? 5 then bpsPerBlock * 3
    else if zoom <=? 10 then bpsPerBlock * 2
    else if 70 <? zoom then Math_round (bpsPerBlock * (70 / zoom))
    else bpsPerBlock in
  let bpsPerBlock := Math_max 1 bpsPerBlock in
  let size :=
    if num_truthy (width size) && (bpsPerBlock <? seqLength seq)
    then {| height := height size; width := width size - 28 |} else size in
  let charWidth := width size / bpsPerBlock in
  let lineHeight := 1.4 * seqFontSize in
  let elementHeight := 16 in
  {| bpsPerBlock := bpsPerBlock;
     charWidth := charWidth;
     elementHeight := elementHeight;
     lineHeight := lineHeight;
     seqFontSize := seqFontSize;
     l_size := size;
     l_zoom := zoom |}.

(** The object bound to [size]: [props.testSize] itself when it is given,
    otherwise a fresh object. *)
Definition initialSize (p : Props) : Size :=
  match p_testSize p with
  | Some s => s
  | None => {| height := p_height p; width := p_width p |}
  end.

(** Writing the final contents of [size] back to the object it aliases. *)
Definition storeSize (s : Size) (c : Component) : Component :=
  match p_testSize (props c) with
  | Some _ =>
      {| props :=
           {| p_seq := p_seq (props c);
              p_seqType := p_seqType (props c);
              p_viewer := p_viewer (props c);
              p_height := p_height (props c);
              p_width := p_width (props c);
              p_testSize := Some s;
              p_zoom := p_zoom (props c);
              p_selection := p_selection (props c);
              p_onSelection := p_onSelection (props c) |};
         state := state c;
         effects := effects c |}
  | None => c
  end.

(** [linearProps = () => { ... }] *)
Definition linearProps : M LinearLayout := fun c =>
  let p := props c in
  let r := linearLayout (p_seq p) (p_seqType p) (p_viewer p)
                        (zoom_linear (p_zoom p)) (initialSize p) in
  (inr r, storeSize (l_size r) c).

(** ** Circular layout *)

Record Point : Type := { pt_x : float; pt_y : float }.

Record CircularLayout : Type := {
  bpsOnArc : float;
  center : Point;
  radius : float;
  c_size : Size;
  yDiff : float;
  c_zoom : float;
}.

Section Circular.
(** [Math.exp], [Math.log] and [**] are implementation-approximated in
    ECMAScript; the calculator is parameterised by them. *)
Variable Math_exp Math_log : float -> float.
Variable Math_pow : float -> float -> float.

Definition circularLayout (seq : string) (viewer : Viewer) (zoom : float)
    (size : Size) : CircularLayout :=
  let seqLength := seqLength seq in
  (* hack *)
  let size :=
    if includes (viewer_string viewer) "both"
    then {| height := height size; width := width size / 2 |} else size in
  let center := {| pt_x := width size / 2; pt_y := height size / 2 |} in
  let limitingDim := Math_min (height size) (width size) in
  let exp := 0.83 in
  let beta := Math_exp (Math_log (50 / seqLength) / - (Math_pow 100 exp)) in
  let bpsOnArc := seqLength * beta in
  let radius := limitingDim * 0.34 in
  {| bpsOnArc := bpsOnArc;
     center := center;
     radius := if radius =? 0 then 1 else radius;
     c_size := size;
     yDiff := 0;
     c_zoom := zoom |}.

(** [circularProps = () => { ... }] *)
Definition circularProps : M CircularLayout := fun c =>
  let p := props c in
  let r := circularLayout (p_seq p) (p_viewer p) (zoom_circular (p_zoom p))
                          (initialSize p) in
  (inr r, storeSize (c_size r) c).
End Circular.

Local Close Scope float_scope.

(** ** Vocabulary of the statements *)

(** The error [setCentralIndex] raises for an unknown axis token. *)
Definition InvalidAxisError (type : string) : Exn :=
  Error ("Unknown central index type: " ++ type).

Definition recognized (type : string) : Prop :=
  type = "LINEAR"%string \/ type = "CIRCULAR"%string.

(** The constructor's state: both indices are [0] and the selection is
    resolved from [defaultSelection] (declared outside this file, hence a
    parameter) and the caller-supplied one.  The method reference the
    constructor stores beside the two indices is left out, as in
    [State]: the map holds the index entries. *)
Definition initialState (defaultSelection : JsObj) (p : Props) : State :=
  {| centralIndex := {[ "circular"%string := 0; "linear"%string := 0 ]};
     selection := getSelection defaultSelection (p_selection p) |}.

(** A freshly constructed component, for the worked examples; they do not
    depend on the default selection, which is left empty. *)
Definition mount (p : Props) : Component :=
  {| props := p; state := initialState ∅ p; effects := [] |}.

Definition sampleProps (v : Viewer) (seqType : string) (n : nat) (w h z : float)
    (ts : option Size) (sel : option JsObj) : Props :=
  {| p_seq := String.concat EmptyString (replicate n "A"%string);
     p_seqType := seqType; p_viewer := v;
     p_height := h; p_width := w; p_testSize := ts;
     p_zoom := {| zoom_circular := z; zoom_linear := z |};
     p_selection := sel; p_onSelection := Fn "onSelection" |}.

(** The value forwarded to [onSelection]: the selection without its
    [parent] and [ref] properties. *)
Definition stripped (sel : JsObj) : JsObj := delete "ref" (delete "parent" sel).

Local Open Scope float_scope.

(** A viewer showing both layouts of a 10000 bp sequence, with a forced
    test size of 800 x 600. *)
Definition forcedBoth : Component :=
  mount (sampleProps both "dna" 10000 0 0 50
           (Some {| height := 600; width := 800 |}) None).

Local Close Scope float_scope.

(** ** Shapes of binary64 values *)

(** Shape of a [spec_float]: not a NaN and of sign [s]. *)
Definition signed (s : bool) (x : spec_float) : Prop :=
  match x with
  | S754_zero s' | S754_infinity s' | S754_finite s' _ _ => s' = s
  | S754_nan => False
  end.

Definition sf_nan (x : spec_float) : bool :=
  match x with S754_nan => true | _ => false end.

Definition sf_finite (x : spec_float) : Prop :=
  match x with S754_finite _ _ _ => True | _ => False end.

(** A number that is a zero (of either sign) or is positive. *)
Definition zero_or_pos (x : spec_float) : Prop :=
  match x with
  | S754_zero _ | S754_infinity false | S754_finite false _ _ => True
  | _ => False
  end.

Definition pos_finite (x : spec_float) : Prop :=
  match x with S754_finite false _ _ => True | _ => False end.

Local Open Scope float_scope.

(** ** The steps of the layout calculators, named *)

(** The size object after the halving of [width] in the modes showing both
    layouts. *)
Definition halved (viewer : Viewer) (size : Size) : Size :=
  if includes (viewer_string viewer) "both"
  then {| height := height size; width := width size / 2 |} else size.

(** The value [circularProps] binds to [radius] before the zero guard. *)
Definition rawRadius (size : Size) : float :=
  Math_min (height size) (width size) * 0.34.

(** The same component with another circular zoom. *)
Definition withCircularZoom (z : float) (c : Component) : Component :=
  {| props :=
       {| p_seq := p_seq (props c);
          p_seqType := p_seqType (props c);
          p_viewer := p_viewer (props c);
          p_height := p_height (props c);
          p_width := p_width (props c);
          p_testSize := p_testSize (props c);
          p_zoom := {| zoom_circular := z; zoom_linear := zoom_linear (p_zoom (props c)) |};
          p_selection := p_selection (props c);
          p_onSelection := p_onSelection (props c) |};
     state := state c;
     effects := effects c |}.

(** The base tiling [round(x) || 1]. *)
Definition roundOrOne (x : float) : float :=
  let r := Math_round x in if num_truthy r then r else 1.

(** The zoom correction of [linearProps]. *)
Definition zoomCorrection (zoom b : float) : float :=
  if zoom <=? 5 then b * 3
  else if zoom <=? 10 then b * 2
  else if 70 <? zoom then Math_round (b * (70 / zoom))
  else b.

(** The tiling as the specification words it: a base value with minimum 1,
    divided by 3 for amino acids, scaled by the zoom tier, re-clamped. *)
Definition claimed_bpsPerBlock (seqType : string) (zoom width : float) : float :=
  let seqFontSize := Math_min (Math_round (zoom * 0.1 + 9.5)) 18 in
  let b := Math_max 1 (Math_round (width / seqFontSize * 1.4)) in
  let b := if String.eqb seqType "aa" then b / 3 else b in
  let b :=
    if zoom <=? 5 then b * 3
    else if zoom <=? 10 then b * 2
    else if 70 <? zoom then b * (70 / zoom)
    else b in
  Math_max 1 b.

(** ** The component over time *)

(** [constructor(props)] *)
Definition construct (defaultSelection : JsObj) (p : Props) : Component :=
  {| props := p; state := initialState defaultSelection p; effects := [] |}.

(** A call of one of the two mutators, as the handlers [render] passes
    them to make it. *)
Inductive Call : Type :=
  | CallSetCentralIndex (type : string) (value : Z)
  | CallSetSelection (sel : JsObj).

Definition perform (a : Call) : M unit :=
  match a with
  | CallSetCentralIndex type value => setCentralIndex type value
  | CallSetSelection sel => setSelection sel
  end.

(** A sequence of calls.  A call that throws is over (its caller has the
    exception); the next call finds the component as that call left it. *)
Definition performAll (calls : list Call) (c : Component) : Component :=
  foldl (fun c a => exec (perform a) c) c calls.

(** The arguments of the [setSelection] calls, in call order, and the last
    of them. *)
Definition selectionArgs (calls : list Call) : list JsObj :=
  omap (fun a => match a with
                 | CallSetSelection sel => Some sel
                 | CallSetCentralIndex _ _ => None
                 end) calls.

Definition lastSelection (calls : list Call) : option JsObj :=
  last (selectionArgs calls).

(** The selection [render] publishes through [SelectionContext]. *)
Definition publishedSelection (c : Component) : JsObj :=
  getSelection (selection (state c)) (p_selection (props c)).

(** ** A host that defers [setState] *)

(** The argument of a [setState] call, a partial state: [setCentralIndex]
    passes [{ centralIndex }] and [setSelection] passes [{ selection }]. *)
Record Patch : Type := {
  patch_centralIndex : option (gmap string Z);
  patch_selection : option JsObj;
}.

(** The shallow merge of a patch into a state. *)
Definition applyPatch (s : State) (p : Patch) : State :=
  {| centralIndex := default (centralIndex s) (patch_centralIndex p);
     selection := default (selection s) (patch_selection p) |}.

(** A component whose host has not yet applied the updates requested since
    the last flush: [this.state] is still the state of [current], and the
    arguments of the [setState] calls made since wait in [queue], oldest
    first. *)
Record Deferred : Type := { current : Component; queue : list Patch }.

(** A component with no update pending. *)
Definition idle (c : Component) : Deferred := {| current := c; queue := [] |}.

(** [setCentralIndex] on such a host: the comparison and the spread read
    [this.state], the [setState] call adds its argument to the queue. *)
Definition setCentralIndex_deferred (type : string) (value : Z) (d : Deferred)
    : (Exn + unit) * Deferred :=
  if negb (String.eqb type "LINEAR") && negb (String.eqb type "CIRCULAR") then
    (inl (Error ("Unknown central index type: " ++ type)), d)
  else
    let s := state (current d) in
    if bool_decide (centralIndex s !! toLowerCase type = Some value) then
      (inr tt, d) (* nothing changed *)
    else
      (inr tt,
       {| current := current d;
          queue := queue d
                   ++ [{| patch_centralIndex :=
                            Some (<[toLowerCase type := value]> (centralIndex s));
                          patch_selection := None |}] |}).

(** The host applies the pending updates, in the order of the calls. *)
Definition flush (d : Deferred) : Deferred :=
  idle {| props := props (current d);
          state := foldl applyPatch (state (current d)) (queue d);
          effects := effects (current d) |}.

(** The central index after the pending updates are applied. *)
Definition flushedIndex (d : Deferred) : gmap string Z :=
  centralIndex (state (current (flush d))).

(** ** render *)

(** The elements [render] creates for the two layouts: each is given the
    object its calculator returned. *)
Inductive View : Type :=
  | Linear (l : LinearLayout)
  | Circular (k : CircularLayout).

(** What [render] hands down: the two context values, the props of
    [SelectionHandler] and [EventHandler] that are computed here, and the
    layout elements in document order. *)
Record Rendered : Type := {
  centralIndexContext : gmap string Z;
  selectionContext : JsObj;
  h_bpsPerBlock : float;
  h_center : Point;
  h_centralIndex : option Z;
  h_yDiff : float;
  h_selection : JsObj;
  views : list View;
}.

(** Contents of a [size] object a calculator returned, read once [render]
    is over: the object is [props.testSize] when that is given, and the
    calculator's own object otherwise. *)
Definition sizeSeen (own : Size) : M Size := fun c =>
  (inr (match p_testSize (props c) with Some s => s | None => own end), c).

Definition linearWithSize (l : LinearLayout) (s : Size) : LinearLayout :=
  {| bpsPerBlock := bpsPerBlock l;
     charWidth := charWidth l;
     elementHeight := elementHeight l;
     lineHeight := lineHeight l;
     seqFontSize := seqFontSize l;
     l_size := s;
     l_zoom := l_zoom l |}.

Definition circularWithSize (k : CircularLayout) (s : Size) : CircularLayout :=
  {| bpsOnArc := bpsOnArc k;
     center := center k;
     radius := radius k;
     c_size := s;
     yDiff := yDiff k;
     c_zoom := c_zoom k |}.

(** The element tree [render] returns. *)
Definition tree (p : Props) (s : State) (lp : LinearLayout) (cp : CircularLayout)
    : Rendered :=
  let viewer := viewer_string (p_viewer p) in
  {| centralIndexContext := centralIndex s;
     selectionContext := getSelection (selection s) (p_selection p);
     h_bpsPerBlock := bpsPerBlock lp;
     h_center := center cp;
     h_centralIndex := centralIndex s !! "circular"%string;
     h_yDiff := yDiff cp;
     h_selection := selection s;
     views :=
       (if String.eqb viewer "linear" then [Linear lp] else [])
       ++ (if String.eqb viewer "circular" then [Circular cp] else [])
       ++ (if String.eqb viewer "both" then [Circular cp; Linear lp] else [])
       ++ (if String.eqb viewer "both_flip" then [Linear lp; Circular cp] else []) |}.

Section Render.
Variable Math_exp Math_log : float -> float.
Variable Math_pow : float -> float -> float.

(** [render() { ... }] *)
Definition render : M Rendered :=
  p ← getProps;
  s ← getState;
  lp ← linearProps;
  cp ← circularProps Math_exp Math_log Math_pow;
  lsize ← sizeSeen (l_size lp);
  csize ← sizeSeen (c_size cp);
  mret (tree p s (linearWithSize lp lsize) (circularWithSize cp csize)).

(** The two layouts of one rendering: the circular calculator runs on the
    component the linear one left. *)
Definition renderLinear (c : Component) : LinearLayout :=
  linearLayout (p_seq (props c)) (p_seqType (props c)) (p_viewer (props c))
               (zoom_linear (p_zoom (props c))) (initialSize (props c)).

Definition renderCircular (c : Component) : CircularLayout :=
  let c1 := exec linearProps c in
  circularLayout Math_exp Math_log Math_pow
                 (p_seq (props c1)) (p_viewer (props c1))
                 (zoom_circular (p_zoom (props c1))) (initialSize (props c1)).
End Render.

(** The linear and the circular elements of a rendering. *)
Definition linearViews (r : Rendered) : list LinearLayout :=
  omap (fun v => match v with Linear l => Some l | Circular _ => None end) (views r).

Definition circularViews (r : Rendered) : list CircularLayout :=
  omap (fun v => match v with Circular k => Some k | Linear _ => None end) (views r).

(** Components that differ at most in the contents of [props.testSize]. *)
Definition sameButTestSize (c c' : Component) : Prop :=
  state c' = state c /\ effects c' = effects c
  /\ p_seq (props c') = p_seq (props c)
  /\ p_seqType (props c') = p_seqType (props c)
  /\ p_viewer (props c') = p_viewer (props c)
  /\ p_height (props c') = p_height (props c)
  /\ p_width (props c') = p_width (props c)
  /\ p_zoom (props c') = p_zoom (props c)
  /\ p_selection (props c') = p_selection (props c)
  /\ p_onSelection (props c') = p_onSelection (props c)
  /\ (is_Some (p_testSize (props c')) <-> is_Some (p_testSize (props c))).

(** * The JBEI reader *)

(** The second module of the file converts a JBEI document to a part.  Its
    work is done in the callback it hands to [xml2js.parseString]; what is
    embedded is one invocation of that callback on a promise in a given
    state, with the parsed document as a tree of JavaScript values. *)

(** ** Values of the parsed document *)

Set Warnings "-register-all".

(** JavaScript values as far as a parsed XML document and the parts built
    from it need them. *)
Inductive Js : Type :=
  | JUndefined
  | JNull
  | JBool (b : bool)
  | JNum (x : float)
  | JStr (s : string)
  | JArr (items : list Js)
  | JObj (fields : gmap string Js).

Definition js_truthy (v : Js) : bool :=
  match v with
  | JUndefined | JNull => false
  | JBool b => b
  | JNum x => num_truthy x
  | JStr s => negb (String.eqb s EmptyString)
  | JArr _ | JObj _ => true
  end.

(** Reading a property throws a [TypeError] on [undefined] and [null]. *)
Inductive Thrown : Type := TypeError.

#[global] Instance Thrown_ret : MRet (sum Thrown) := fun A a => inr a.
#[global] Instance Thrown_bind : MBind (sum Thrown) := fun A B f m =>
  match m with
  | inl e => inl e
  | inr a => f a
  end.

(** [v[k]], for the property names the reader uses: element names, [_],
    [length] and the index [0].  None of them is defined on a prototype, so
    on a primitive only [length] and [0] of a string are found (strings are
    ASCII, one code unit per character). *)
Definition js_get (v : Js) (k : string) : Thrown + Js :=
  match v with
  | JUndefined | JNull => inl TypeError
  | JBool _ | JNum _ => inr JUndefined
  | JStr s =>
      inr (if String.eqb k "0" then
             match s with
             | String a _ => JStr (String a EmptyString)
             | EmptyString => JUndefined
             end
           else if String.eqb k "length" then JNum (seqLength s)
           else JUndefined)
  | JArr items =>
      inr (if String.eqb k "0" then default JUndefined (head items)
           else if String.eqb k "length" then JNum (float_of_Z (Z.of_nat (length items)))
           else JUndefined)
  | JObj fields => inr (default JUndefined (fields !! k))
  end.

(** [v === "s"] *)
Definition js_is_string (v : Js) (s : string) : bool :=
  match v with JStr t => String.eqb t s | _ => false end.

(** [a || b] *)
Definition js_or (a b : Js) : Js := if js_truthy a then a else b.

(** A destructuring default: [{ k = d } = ...]. *)
Definition js_default (v d : Js) : Js :=
  match v with JUndefined => d | _ => v end.

(** [x[0]._] and the test [x && x[0] && x[0].k]. *)
Definition textOf (x : Js) : Thrown + Js :=
  x0 ← js_get x "0"; js_get x0 "_".

Definition hasFirst (x : Js) (k : string) : Thrown + bool :=
  if js_truthy x then
    x0 ← js_get x "0";
    if js_truthy x0 then v ← js_get x0 k; inr (js_truthy v) else inr false
  else inr false.

(** [x && x[0] && x[0].k1 && x[0].k2] *)
Definition hasBoth (x : Js) (k1 k2 : string) : Thrown + bool :=
  b ← hasFirst x k1;
  if (b : bool) then x0 ← js_get x "0"; v ← js_get x0 k2; inr (js_truthy v) else inr false.

(** ** The promise *)

Inductive Promise : Type :=
  | Pending
  | Resolved (value : Js)
  | Rejected (message : string).

(** [resolve] and [reject] act on a pending promise only. *)
Definition settle (p outcome : Promise) : Promise :=
  match p with Pending => outcome | _ => p end.

(** What one invocation of the callback leaves: the state of the promise,
    and whether the invocation ended by throwing (what its caller makes of
    the exception is not part of the callback). *)
Record Outcome : Type := { promise : Promise; threw : bool }.

(** The replacement of the directed quotation marks U+201C and U+201D by
    the straight one (code 34), on the UTF-8 bytes of the file, where the
    two marks are the byte sequences E2 80 9C and E2 80 9D. *)
Definition is_directed_quote (a b c : ascii) : bool :=
  Ascii.eqb a (ascii_of_nat 226) && Ascii.eqb b (ascii_of_nat 128)
  && (Ascii.eqb c (ascii_of_nat 156) || Ascii.eqb c (ascii_of_nat 157)).

Fixpoint replaceQuotes (s : string) : string :=
  match s with
  | EmptyString => EmptyString
  | String a s' =>
      match s' with
      | String b (String c rest) =>
          if is_directed_quote a b c
          then String (ascii_of_nat 34) (replaceQuotes rest)
          else String a (replaceQuotes s')
      | _ => String a (replaceQuotes s')
      end
  end.

Section Jbei.
(** The conversions of the language and the helpers imported from other
    modules, which are taken to return: [partFactory()] is a plain object,
    given by its properties, and [randomid] is given the number of
    identifiers drawn before. *)
Variable ToNumber : Js -> float.
Variable ToString : Js -> string.
Variable dnaComplement : Js -> Js.
Variable partFactory : gmap string Js.
Variable colorByIndex : nat -> Js.
Variable randomid : nat -> Js.

(** [+v || 0] *)
Definition numberOrZero (x : float) : Js := JNum (if num_truthy x then x else 0).

(** The callback of [forEach]: the annotation pushed for [feature] at index
    [i], if any; [n] annotations were pushed before. *)
Definition annotationOf (i n : nat) (feature : Js) : Thrown + option Js :=
  if negb (js_truthy feature) then inr None else
  label ← js_get feature "label";
  type ← js_get feature "type";
  complement ← js_get feature "complement";
  location ← js_get feature "location";
  let label := js_default label (JArr [JObj ∅]) in
  let type := js_default type (JArr [JObj ∅]) in
  let complement := js_default complement (JArr [JObj ∅]) in
  let location := js_default location (JArr []) in
  hasLocation ← hasBoth location "genbankStart" "end";
  if (hasLocation : bool) then
    let color := colorByIndex i in
    c ← textOf complement;
    let direction := JNum (if js_is_string c "true" then -1 else 1) in
    l0 ← js_get location "0";
    e ← js_get l0 "end";
    e ← textOf e;
    let end_ := numberOrZero (ToNumber e) in
    let id := randomid n in
    l ← textOf label;
    let name := js_or l (JStr "Untitled") in
    s ← js_get l0 "genbankStart";
    s ← textOf s;
    let start := numberOrZero (ToNumber s - 1) in
    t ← textOf type;
    let type := js_or t (JStr "N/A") in
    inr (Some (JObj {[ "color"%string := color;
                        "direction"%string := direction;
                        "end"%string := end_;
                        "id"%string := id;
                        "name"%string := name;
                        "start"%string := start;
                        "type"%string := type ]}))
  else inr None.

(** [features[0].feature.forEach((feature, i) => ...)], from index [i] on. *)
Fixpoint forEachFeature (i : nat) (features : list Js) (annotations : list Js)
    : Thrown + list Js :=
  match features with
  | [] => inr annotations
  | feature :: rest =>
      a ← annotationOf i (length annotations) feature;
      forEachFeature (S i) rest
        (match a with Some x => annotations ++ [x] | None => annotations end)
  end.

(** The body of the callback after the error check: the part it resolves
    with, or nothing after [return null]. *)
Definition readPart (fileString : string) (parsedJBEI : Js) : Thrown + option Js :=
  seq ← js_get parsedJBEI "seq";
  circular ← js_get seq "circular";
  features ← js_get seq "features";
  name ← js_get seq "name";
  sequence ← js_get seq "sequence";
  hasName ← hasFirst name "_";
  parsedName ← (if (hasName : bool) then textOf name else inr (JStr "Unnamed"));
  hasSequence ← hasFirst sequence "_";
  parsedSeq ← (if (hasSequence : bool) then textOf sequence else inr (JStr EmptyString));
  let complemented := dnaComplement parsedSeq in
  parsedCompSeq ← js_get complemented "compSeq";
  parsedSeq2 ← js_get complemented "seq";
  if negb (js_truthy parsedSeq2) then inr None else
  len ← js_get parsedSeq2 "length";
  hasCircular ← hasFirst circular "_";
  parsedCircular ← (if (hasCircular : bool)
                    then c ← textOf circular; inr (js_is_string c "true")
                    else inr (2000 <? ToNumber len));
  hasFeatures ← hasFirst features "feature";
  annotations ← (if (hasFeatures : bool) then
                   f ← js_get features "0";
                   f ← js_get f "feature";
                   match f with
                   | JArr items => forEachFeature 0 items []
                   | _ => inl TypeError
                   end
                 else inr []);
  inr (Some (JObj (<["annotations"%string := JArr annotations]>
                    (<["circular"%string := JBool parsedCircular]>
                    (<["compSeq"%string := parsedCompSeq]>
                    (<["name"%string := parsedName]>
                    (<["seq"%string := parsedSeq2]>
                    (<["source"%string := JStr fileString]> partFactory)))))))).

(** [(err, parsedJBEI) => { ... }], run on a promise in state [p]. *)
Definition callback (p : Promise) (fileString : string) (err parsedJBEI : Js)
    : Outcome :=
  let p :=
    if js_truthy err
    then settle p (Rejected ("Failed on JBEI file; " ++ ToString err))
    else p in
  match readPart fileString parsedJBEI with
  | inl TypeError => {| promise := p; threw := true |}
  | inr None => {| promise := p; threw := false |}
  | inr (Some part) => {| promise := settle p (Resolved (JArr [part])); threw := false |}
  end.
End Jbei.

(** ** Vocabulary of the statements about the reader *)

(** The keys the callback sets on the part it resolves with. *)
Definition partKeys : list string :=
  ["annotations"; "circular"; "compSeq"; "name"; "seq"; "source"]%string.

(** A number as [+v || 0] leaves it: not NaN, and either truthy or exactly
    [0]. *)
Definition plainNumber (v : Js) : Prop :=
  exists x, v = JNum x /\ is_nan x = false /\ (x = 0 \/ num_truthy x = true).

(** An annotation as the loop pushes it for the feature at index [i] when
    [n] annotations were pushed before. *)
Definition annotationFor (colorByIndex randomid : nat -> Js) (i n : nat) (a : Js) : Prop :=
  exists m : gmap string Js,
    a = JObj m
    /\ dom m = list_to_set ["color"; "direction"; "end"; "id"; "name"; "start"; "type"]%string
    /\ m !! "color"%string = Some (colorByIndex i)
    /\ m !! "id"%string = Some (randomid n)
    /\ (m !! "direction"%string = Some (JNum 1) \/ m !! "direction"%string = Some (JNum (-1)))
    /\ (exists v, m !! "start"%string = Some v /\ plainNumber v)
    /\ (exists v, m !! "end"%string = Some v /\ plainNumber v)
    /\ (exists v, m !! "name"%string = Some v /\ js_truthy v = true)
    /\ (exists v, m !! "type"%string = Some v /\ js_truthy v = true).

(** A list of indices in strictly increasing order. *)
Definition increasing (idx : list nat) : Prop :=
  forall k k' j j', (k < k')%nat -> idx !! k = Some j -> idx !! k' = Some j' -> (j < j')%nat.

(** Whether a directed quotation mark occurs in a string. *)
Fixpoint hasDirectedQuote (s : string) : bool :=
  match s with
  | EmptyString => false
  | String a s' =>
      match s' with
      | String b (String c _) => is_directed_quote a b c || hasDirectedQuote s'
      | _ => false
      end
  end.

(** ** A worked document *)

(** Stand-ins for the conversions and the imported helpers, for the worked
    examples only: [ToNumber] on numbers and on strings of decimal digits,
    a complement that returns its argument twice, an empty part. *)
Definition digitOf (a : ascii) : option Z :=
  let n := Z.of_nat (nat_of_ascii a) in
  if ((48 <=? n) && (n <=? 57))%Z then Some (n - 48)%Z else None.

Fixpoint decimalFrom (acc : Z) (s : string) : option Z :=
  match s with
  | EmptyString => Some acc
  | String a rest =>
      match digitOf a with
      | Some d => decimalFrom (10 * acc + d)%Z rest
      | None => None
      end
  end.

Definition sampleToNumber (v : Js) : float :=
  match v with
  | JNum x => x
  | JStr s => match decimalFrom 0 s with Some n => float_of_Z n | None => nan end
  | JNull => 0
  | JBool b => if b then 1 else 0
  | _ => nan
  end.

Definition sampleToString (v : Js) : string :=
  match v with JStr s => s | _ => "[object Object]"%string end.

Definition sampleComplement (v : Js) : Js :=
  JObj {[ "compSeq"%string := v; "seq"%string := v ]}.

Definition sampleColor (i : nat) : Js := JNum (float_of_Z (Z.of_nat i)).

Definition sampleId (n : nat) : Js := JNum (float_of_Z (Z.of_nat n)).

Definition element (text : string) : Js := JArr [JObj {[ "_"%string := JStr text ]}].

(** A feature without a location, then a complemented one from 5 to 9. *)
Definition sampleFeatures : list Js :=
  [ JObj {[ "label"%string := element "ori" ]};
    JObj {[ "label"%string := element "bla";
            "complement"%string := element "true";
            "location"%string :=
              JArr [JObj {[ "genbankStart"%string := element "5";
                            "end"%string := element "9" ]}] ]} ].

Definition sampleAnnotations : list Js :=
  [ JObj {[ "color"%string := sampleColor 1;
            "direction"%string := JNum (-1);
            "end"%string := JNum 9;
            "id"%string := sampleId 0;
            "name"%string := JStr "bla";
            "start"%string := JNum 4;
            "type"%string := JStr "N/A" ]} ].

(** A document whose [circular] element says ["false"]. *)
Definition sampleSeq : Js :=
  JObj {[ "name"%string := element "pTest";
          "circular"%string := element "false";
          "sequence"%string := element "atgcatgc";
          "features"%string := JArr [JObj {[ "feature"%string := JArr sampleFeatures ]}] ]}.

Definition sampleDocument : Js := JObj {[ "seq"%string := sampleSeq ]}.

Definition samplePart : gmap string Js :=
  {[ "annotations"%string := JArr sampleAnnotations;
     "circular"%string := JBool false;
     "compSeq"%string := JStr "atgcatgc";
     "name"%string := JStr "pTest";
     "seq"%string := JStr "atgcatgc";
     "source"%string := JStr "<seq/>" ]}.

(** A number that is at least [k * 2^e0], read off its representation:
    [+∞], or a positive finite number with a larger exponent, or with the
    same exponent and a mantissa of at least [k]. *)
Definition at_least (k e0 : Z) (x : spec_float) : Prop :=
  match x with
  | S754_infinity false => True
  | S754_finite false m e => (e0 < e \/ (e = e0 /\ k <= Zpos m))%Z
  | _ => False
  end.

(* ===================================================================== *)
(** * Theorems *)

(** ** The numeric primitives on sample values *)

Local Open Scope float_scope.

Example Math_round_samples :
  Math_round 2.5 = 3 /\ Math_round (-2.5) = -2 /\ Math_round (-2.6) = -3
  /\ Math_round 14.5 = 15 /\ Math_round 0.49999999999999994 = 0
  /\ Math_round (-0.5) = neg_zero /\ Math_round 74.66666666666667 = 75
  /\ Math_round infinity = infinity /\ is_nan (Math_round nan) = true.
Proof. repeat split; vm_compute; reflexivity. Qed.

Example Math_min_max_samples :
  Math_min 400 600 = 400 /\ Math_max 1 0 = 1 /\ Math_max 1 75 = 75
  /\ Math_min 0 neg_zero = neg_zero /\ Math_max neg_zero 0 = 0
  /\ is_nan (Math_max 1 nan) = true.
Proof. repeat split; vm_compute; reflexivity. Qed.

Example includes_both_samples :
  includes (viewer_string linear) "both" = false
  /\ includes (viewer_string circular) "both" = false
  /\ includes (viewer_string both) "both" = true
  /\ includes (viewer_string both_flip) "both" = true.
Proof. repeat split. Qed.

Example toLowerCase_samples :
  toLowerCase "LINEAR" = "linear"%string /\ toLowerCase "CIRCULAR" = "circular"%string.
Proof. split; reflexivity. Qed.

Local Close Scope float_scope.

(** ** Central index and selection *)

Lemma guard_recognized (type : string) :
  recognized type ->
  negb (String.eqb type "LINEAR") && negb (String.eqb type "CIRCULAR") = false.
Proof. intros [-> | ->]; reflexivity. Qed.

Lemma guard_unrecognized (type : string) :
  ~ recognized type ->
  negb (String.eqb type "LINEAR") && negb (String.eqb type "CIRCULAR") = true.
Proof.
  intros H. unfold recognized in H.
  destruct (String.eqb_spec type "LINEAR"); [tauto|].
  destruct (String.eqb_spec type "CIRCULAR"); [tauto|]. reflexivity.
Qed.

Lemma mutations_snoc (c : Component) (next : State) :
  mutations (exec (setState next) c) = S (mutations c).
Proof.
  unfold mutations, exec, setState; simpl.
  rewrite filter_app, length_app. simpl. lia.
Qed.

Lemma setCentralIndex_same (type : string) (value : Z) (c : Component) :
  recognized type ->
  centralIndex (state c) !! toLowerCase type = Some value ->
  setCentralIndex type value c = (inr tt, c).
Proof.
  intros Hr Hv. unfold setCentralIndex. rewrite (guard_recognized _ Hr).
  unfold mbind, M_bind, getState. rewrite bool_decide_eq_true_2 by exact Hv.
  reflexivity.
Qed.

Lemma setCentralIndex_changed (type : string) (value : Z) (c : Component) :
  recognized type ->
  centralIndex (state c) !! toLowerCase type <> Some value ->
  setCentralIndex type value c =
    setState {| centralIndex := <[toLowerCase type := value]> (centralIndex (state c));
                selection := selection (state c) |} c.
Proof.
  intros Hr Hv. unfold setCentralIndex. rewrite (guard_recognized _ Hr).
  unfold mbind, M_bind, getState. rewrite bool_decide_eq_false_2 by exact Hv.
  reflexivity.
Qed.

(** C4: for every axis token other than ["LINEAR"] and ["CIRCULAR"] and
    every value, [setCentralIndex] fails with [InvalidAxisError], thrown to
    its caller, and the component (both stored indices included) is exactly
    as before the call. *)
Theorem setCentralIndex_invalid_axis (type : string) (value : Z) (c : Component) :
  type <> "LINEAR"%string -> type <> "CIRCULAR"%string ->
  setCentralIndex type value c = (inl (InvalidAxisError type), c).
Proof.
  intros H1 H2. unfold setCentralIndex.
  rewrite guard_unrecognized by (unfold recognized; tauto).
  reflexivity.
Qed.

(** [setCentralIndex("DIAGONAL", 5)] on a freshly constructed component. *)
Lemma setCentralIndex_diagonal :
  let c := mount (sampleProps linear "dna" 8 800 600 50 None None) in
  setCentralIndex "DIAGONAL" 5 c = (inl (InvalidAxisError "DIAGONAL"), c).
Proof. intros c. apply (setCentralIndex_invalid_axis "DIAGONAL" 5 c); discriminate. Defined.

Lemma setCentralIndex_deferred_same (type : string) (value : Z) (d : Deferred) :
  recognized type ->
  centralIndex (state (current d)) !! toLowerCase type = Some value ->
  setCentralIndex_deferred type value d = (inr tt, d).
Proof.
  intros Hr Hv. unfold setCentralIndex_deferred. rewrite (guard_recognized _ Hr).
  cbv zeta. rewrite bool_decide_eq_true_2 by exact Hv. reflexivity.
Qed.

Lemma setCentralIndex_deferred_changed (type : string) (value : Z) (d : Deferred) :
  recognized type ->
  centralIndex (state (current d)) !! toLowerCase type <> Some value ->
  setCentralIndex_deferred type value d
  = (inr tt,
     {| current := current d;
        queue := queue d
                 ++ [{| patch_centralIndex :=
                          Some (<[toLowerCase type := value]>
                                  (centralIndex (state (current d))));
                        patch_selection := None |}] |}).
Proof.
  intros Hr Hv. unfold setCentralIndex_deferred. rewrite (guard_recognized _ Hr).
  cbv zeta. rewrite bool_decide_eq_false_2 by exact Hv. reflexivity.
Qed.

(** A host that applies each update before the next call is the one the
    methods of the component are written against. *)
Lemma flush_after_call (type : string) (value : Z) (c : Component) :
  fst (setCentralIndex_deferred type value (idle c)) = fst (setCentralIndex type value c)
  /\ state (current (flush (snd (setCentralIndex_deferred type value (idle c)))))
     = state (exec (setCentralIndex type value) c)
  /\ props (current (flush (snd (setCentralIndex_deferred type value (idle c)))))
     = props (exec (setCentralIndex type value) c).
Proof.
  unfold setCentralIndex_deferred, setCentralIndex, exec, mbind, M_bind, getState.
  destruct (negb (String.eqb type "LINEAR") && negb (String.eqb type "CIRCULAR")).
  - repeat split.
  - cbv zeta. cbn [idle current state].
    destruct (bool_decide (centralIndex (state c) !! toLowerCase type = Some value)).
    + repeat split.
    + repeat split.
Qed.

(** C5 (counterexample): on a host that defers [setState], the second of
    two immediately successive calls [setCentralIndex("LINEAR", 7)] still
    reads the index 0 from [this.state]; it requests the update again, and
    two state mutations are pending. *)
Lemma setCentralIndex_twice_in_one_batch :
  let d := idle (mount (sampleProps linear "dna" 8 800 600 50 None None)) in
  ~ (forall (type : string) (value : Z),
       recognized type ->
       let d1 := snd (setCentralIndex_deferred type value d) in
       let d2 := snd (setCentralIndex_deferred type value d1) in
       (length (queue d2) <= 1)%nat).
Proof.
  intros d H. specialize (H "LINEAR"%string 7 (or_introl eq_refl)).
  vm_compute in H. lia.
Qed.

(** C5 (amended): for a recognized axis kind, [setCentralIndex] makes no
    [setState] call when the value is the one [this.state] holds for that
    kind at the time of the call, whatever updates are pending; otherwise
    it makes one [setState] call, whose argument carries only
    [centralIndex], with that kind's entry replaced and every other entry
    as read from [this.state].  Once that update has been applied the
    kind's entry is the value, the other entries, the selection and the
    props are as before, and a second call with the same kind and value
    makes no [setState] call, so that the two calls request at most one
    mutation.  On a host that applies each update before the next call
    this is the state the method leaves. *)
Theorem setCentralIndex_noop_or_replace (type : string) (value : Z) (d : Deferred) :
  recognized type ->
  let k := toLowerCase type in
  let stored := centralIndex (state (current d)) in
  let d1 := snd (setCentralIndex_deferred type value d) in
  (stored !! k = Some value ->
     setCentralIndex_deferred type value d = (inr tt, d))
  /\ (stored !! k <> Some value ->
        fst (setCentralIndex_deferred type value d) = inr tt
        /\ current d1 = current d
        /\ queue d1 = queue d ++ [{| patch_centralIndex := Some (<[k := value]> stored);
                                     patch_selection := None |}]
        /\ (forall k', k' <> k -> <[k := value]> stored !! k' = stored !! k'))
  /\ (length (queue d1) <= S (length (queue d)))%nat
  /\ (queue d = [] ->
        let d2 := flush d1 in
        centralIndex (state (current d2)) !! k = Some value
        /\ (forall k', k' <> k ->
              centralIndex (state (current d2)) !! k' = stored !! k')
        /\ selection (state (current d2)) = selection (state (current d))
        /\ props (current d2) = props (current d)
        /\ setCentralIndex_deferred type value d2 = (inr tt, d2)
        /\ state (current d2) = state (exec (setCentralIndex type value) (current d))).
Proof.
  intros Hr k stored d1.
  split; [intros He; apply setCentralIndex_deferred_same; assumption|].
  split.
  { intros Hne. subst d1.
    rewrite setCentralIndex_deferred_changed by assumption.
    repeat split.
    intros k' Hk'. apply lookup_insert_ne. intros E. apply Hk'. symmetry. exact E. }
  split.
  { subst d1. destruct (decide (stored !! k = Some value)) as [He | Hne].
    - rewrite setCentralIndex_deferred_same by assumption. cbn [snd]. lia.
    - rewrite setCentralIndex_deferred_changed by assumption.
      cbn [snd queue]. rewrite length_app. cbn. lia. }
  intros Hq d2. subst d2 d1 stored.
    destruct d as [c q]. cbn [current queue] in *. subst q.
    change {| current := c; queue := [] |} with (idle c).
    destruct (flush_after_call type value c) as (_ & Hst & Hpr).
    set (d2 := flush (snd (setCentralIndex_deferred type value (idle c)))) in *.
    assert (Hci : centralIndex (state (current d2)) = <[k := value]> (centralIndex (state c))
                  /\ selection (state (current d2)) = selection (state c)).
    { rewrite Hst. unfold exec.
      destruct (decide (centralIndex (state c) !! k = Some value)) as [He | Hne].
      - rewrite setCentralIndex_same by assumption. cbn [snd].
        split; [symmetry; apply insert_id; exact He|reflexivity].
      - rewrite setCentralIndex_changed by assumption. split; reflexivity. }
    destruct Hci as [Hci Hsel].
    split; [rewrite Hci; apply lookup_insert_eq|].
    split.
    { intros k' Hk'. rewrite Hci. apply lookup_insert_ne.
      intros E. apply Hk'. symmetry. exact E. }
    split; [exact Hsel|].
    split.
    { rewrite Hpr. unfold exec.
      destruct (decide (centralIndex (state c) !! k = Some value)) as [He | Hne].
      - rewrite setCentralIndex_same by assumption. reflexivity.
      - rewrite setCentralIndex_changed by assumption. reflexivity. }
    split; [|exact Hst].
    apply setCentralIndex_deferred_same; [exact Hr|].
    fold k. rewrite Hci. apply lookup_insert_eq.
Qed.

Lemma setCentralIndex_linear_twice :
  let d := idle (mount (sampleProps linear "dna" 8 800 600 50 None None)) in
  let d2 := flush (snd (setCentralIndex_deferred "LINEAR" 7 d)) in
  centralIndex (state (current d2)) !! "linear"%string = Some 7
  /\ setCentralIndex_deferred "LINEAR" 7 d2 = (inr tt, d2).
Proof.
  intros d d2.
  destruct (setCentralIndex_noop_or_replace "LINEAR" 7 d (or_introl eq_refl))
    as (_ & _ & _ & H).
  destruct (H eq_refl) as (Hv & _ & _ & _ & Hagain & _).
  split; [exact Hv | exact Hagain].
Defined.

(** C1: a caller-supplied selection is returned with [type] forced to the
    empty string and every property other than [type] and [clockwise]
    untouched; [clockwise] becomes [true] when it is absent or [undefined]
    and stays as given when it is a boolean.  Without a caller-supplied
    selection the internal state is returned unchanged.  In particular
    [{start: 10, end: 20}] resolves to [{start: 10, end: 20,
    clockwise: true}] with [type] the empty string. *)
Theorem getSelection_resolve (st : JsObj) (prop : option JsObj) :
  match prop with
  | Some p =>
      getSelection st prop !! "type"%string = Some (VStr EmptyString)
      /\ (forall k : string, k <> "type"%string -> k <> "clockwise"%string ->
            getSelection st prop !! k = p !! k)
      /\ (p !! "clockwise"%string = None \/ p !! "clockwise"%string = Some VUndefined ->
            getSelection st prop
            = <["type"%string := VStr EmptyString]> (<["clockwise"%string := VBool true]> p))
      /\ (forall b : bool, p !! "clockwise"%string = Some (VBool b) ->
            getSelection st prop = <["type"%string := VStr EmptyString]> p)
  | None => getSelection st prop = st
  end
  /\ getSelection st (Some {[ "start"%string := VNum 10; "end"%string := VNum 20 ]})
     = {[ "start"%string := VNum 10; "end"%string := VNum 20;
          "clockwise"%string := VBool true; "type"%string := VStr EmptyString ]}.
Proof.
  split.
  - destruct prop as [p|]; [|reflexivity]. simpl.
    split; [apply lookup_insert_eq|].
    split.
    { intros k Ht Hc. rewrite lookup_insert_ne by congruence.
      rewrite lookup_insert_ne by congruence. reflexivity. }
    split.
    { intros [H | H]; unfold getProp; rewrite H; reflexivity. }
    intros b H. unfold getProp. rewrite H. simpl.
    rewrite (insert_id p "clockwise"%string (VBool b)); [reflexivity|].
    rewrite H. destruct b; reflexivity.
  - apply map_eq. intros k. simpl. unfold getProp.
    destruct (decide (k = "type"%string)) as [->|Ht]; [reflexivity|].
    destruct (decide (k = "clockwise"%string)) as [->|Hc]; [reflexivity|].
    destruct (decide (k = "start"%string)) as [->|Hs]; [reflexivity|].
    destruct (decide (k = "end"%string)) as [->|He]; [reflexivity|].
    repeat (rewrite lookup_insert_ne by congruence).
    rewrite !lookup_singleton_ne by congruence. reflexivity.
Qed.

(** C10: a caller-supplied selection whose [clockwise] is explicitly
    [false] resolves with [clockwise = false]; the default [true] applies
    to an absent or [undefined] [clockwise] only. *)
Theorem getSelection_keeps_false (st p : JsObj) :
  p !! "clockwise"%string = Some (VBool false) ->
  getSelection st (Some p) !! "clockwise"%string = Some (VBool false).
Proof.
  intros H. simpl. rewrite lookup_insert_ne by discriminate.
  rewrite lookup_insert_eq. unfold getProp. rewrite H. reflexivity.
Qed.

Lemma getSelection_counterclockwise :
  getSelection ∅ (Some {[ "start"%string := VNum 20; "end"%string := VNum 10;
                          "clockwise"%string := VBool false ]})
    !! "clockwise"%string = Some (VBool false).
Proof. apply getSelection_keeps_false. reflexivity. Defined.

Lemma stripped_lookup (sel : JsObj) :
  stripped sel !! "parent"%string = None
  /\ stripped sel !! "ref"%string = None
  /\ (forall k : string, k <> "parent"%string -> k <> "ref"%string ->
        stripped sel !! k = sel !! k).
Proof.
  unfold stripped. split; [|split].
  - rewrite lookup_delete_ne by discriminate. apply lookup_delete_eq.
  - apply lookup_delete_eq.
  - intros k Hp Hr. rewrite lookup_delete_ne by congruence.
    apply lookup_delete_ne. congruence.
Qed.

Lemma setSelection_run (sel : JsObj) (c : Component) :
  setSelection sel c =
    call (p_onSelection (props c)) (stripped sel)
      (match p_selection (props c) with
       | Some _ => c
       | None => exec (setState {| centralIndex := centralIndex (state c);
                                   selection := sel |}) c
       end).
Proof.
  unfold setSelection, mbind, M_bind, getProps, getState, when, truthy_fun, exec.
  destruct (p_selection (props c)) as [q|]; reflexivity.
Qed.

Lemma notifications_snoc (f : JsFun) (arg : JsObj) (c : Component) :
  notifications (exec (call f arg) c) = notifications c ++ [arg].
Proof. unfold notifications, exec, call; simpl. rewrite omap_app. reflexivity. Qed.

Lemma notifications_setState (next : State) (c : Component) :
  notifications (exec (setState next) c) = notifications c.
Proof.
  unfold notifications, exec, setState; simpl. rewrite omap_app. simpl.
  apply app_nil_r.
Qed.

Lemma mutations_call (f : JsFun) (arg : JsObj) (c : Component) :
  mutations (exec (call f arg) c) = mutations c.
Proof.
  unfold mutations, exec, call; simpl. rewrite filter_app, length_app. simpl. lia.
Qed.

(** C2: [setSelection] always returns normally and notifies [onSelection]
    exactly once, with the new selection stripped of [parent] and [ref]
    (every other property forwarded as is), whether or not a
    caller-supplied selection is active.  The full value, [parent] and
    [ref] included, is written to the internal state by one [setState]
    when no caller-supplied selection is active; when one is active no
    [setState] happens and the state is left unchanged. *)
Theorem setSelection_apply (sel : JsObj) (c : Component) :
  let c' := exec (setSelection sel) c in
  fst (setSelection sel c) = inr tt
  /\ effects c'
     = effects c
       ++ match p_selection (props c) with
          | Some _ => []
          | None => [SetState {| centralIndex := centralIndex (state c); selection := sel |}]
          end
       ++ [OnSelection (p_onSelection (props c)) (stripped sel)]
  /\ notifications c' = notifications c ++ [stripped sel]
  /\ (stripped sel !! "parent"%string = None
      /\ stripped sel !! "ref"%string = None
      /\ forall k : string, k <> "parent"%string -> k <> "ref"%string ->
           stripped sel !! k = sel !! k)
  /\ (p_selection (props c) = None ->
        selection (state c') = sel /\ mutations c' = S (mutations c))
  /\ (is_Some (p_selection (props c)) ->
        state c' = state c /\ mutations c' = mutations c)
  /\ centralIndex (state c') = centralIndex (state c)
  /\ props c' = props c
  /\ stripped {[ "start"%string := VNum 10; "end"%string := VNum 20;
                 "clockwise"%string := VBool true; "type"%string := VStr "SEQ";
                 "parent"%string := VRef 1; "ref"%string := VNull ]}
     = {[ "start"%string := VNum 10; "end"%string := VNum 20;
          "clockwise"%string := VBool true; "type"%string := VStr "SEQ" ]}.
Proof.
  intros c'. subst c'. unfold exec at 1 2 3 4 5 6 7 8. rewrite setSelection_run.
  set (c0 := match p_selection (props c) with Some _ => c | None => _ end).
  change (snd (call (p_onSelection (props c)) (stripped sel) c0))
    with (exec (call (p_onSelection (props c)) (stripped sel)) c0).
  rewrite notifications_snoc, mutations_call.
  split; [reflexivity|].
  split.
  { subst c0. destruct (p_selection (props c)); simpl; [reflexivity|].
    rewrite <- app_assoc. reflexivity. }
  split.
  { f_equal. subst c0. destruct (p_selection (props c)); [reflexivity|].
    apply notifications_setState. }
  split; [apply stripped_lookup|].
  split.
  { intros Hn. subst c0. rewrite Hn. split; [reflexivity | apply mutations_snoc]. }
  split.
  { intros [q Hq]. subst c0. rewrite Hq. split; reflexivity. }
  split; [subst c0; destruct (p_selection (props c)); reflexivity|].
  split; [subst c0; destruct (p_selection (props c)); reflexivity|].
  apply map_eq. intros k.
  destruct (stripped_lookup
    {[ "start"%string := VNum 10; "end"%string := VNum 20;
       "clockwise"%string := VBool true; "type"%string := VStr "SEQ";
       "parent"%string := VRef 1; "ref"%string := VNull ]}) as (Hp & Hr & Hk).
  destruct (decide (k = "parent"%string)) as [->|Np]; [rewrite Hp; reflexivity|].
  destruct (decide (k = "ref"%string)) as [->|Nr]; [rewrite Hr; reflexivity|].
  rewrite Hk by assumption.
  destruct (decide (k = "start"%string)) as [->|Ns]; [reflexivity|].
  destruct (decide (k = "end"%string)) as [->|Ne]; [reflexivity|].
  destruct (decide (k = "clockwise"%string)) as [->|Nc]; [reflexivity|].
  destruct (decide (k = "type"%string)) as [->|Nt]; [reflexivity|].
  repeat (rewrite lookup_insert_ne by congruence).
  rewrite !lookup_singleton_ne by congruence. reflexivity.
Qed.

Local Open Scope float_scope.

(** ** The aliased [testSize] object *)

Lemma linearLayout_size seq seqType viewer zoom size :
  l_size (linearLayout seq seqType viewer zoom size)
  = if num_truthy (width (halved viewer size))
       && (bpsPerBlock (linearLayout seq seqType viewer zoom size) <? seqLength seq)
    then {| height := height (halved viewer size);
            width := width (halved viewer size) - 28 |}
    else halved viewer size.
Proof. reflexivity. Qed.

Lemma storeSize_fresh (s : Size) (c : Component) :
  p_testSize (props c) = None -> storeSize s c = c.
Proof. intros H. unfold storeSize. rewrite H. reflexivity. Qed.

(** Without a forced test size the calculators work on a fresh object and
    the component is left as it was. *)
Lemma linearProps_fresh_size (c : Component) :
  p_testSize (props c) = None -> exec linearProps c = c.
Proof. intros H. unfold exec, linearProps. simpl. apply storeSize_fresh, H. Qed.

Lemma circularProps_fresh_size (E L : float -> float) (P : float -> float -> float)
    (c : Component) :
  p_testSize (props c) = None -> exec (circularProps E L P) c = c.
Proof. intros H. unfold exec, circularProps. simpl. apply storeSize_fresh, H. Qed.

(** With a forced test size the final contents of [size] are the contents
    of the caller's object: whatever the calculator did to [size.width] is
    visible in [props.testSize] afterwards. *)
Lemma linearProps_aliases_testSize (c : Component) (s : Size) :
  p_testSize (props c) = Some s ->
  exists r : LinearLayout,
    fst (linearProps c) = inr r
    /\ p_testSize (props (exec linearProps c)) = Some (l_size r)
    /\ height (l_size r) = height s
    /\ (includes (viewer_string (p_viewer (props c))) "both" = true ->
        width (l_size r) = width s / 2 \/ width (l_size r) = width s / 2 - 28).
Proof.
  intros H. eexists. split; [reflexivity|].
  split.
  { unfold exec, linearProps, storeSize. simpl. rewrite H. reflexivity. }
  rewrite linearLayout_size. unfold initialSize, halved. rewrite H.
  split.
  - destruct (includes _ _); destruct (_ && _); reflexivity.
  - intros ->. destruct (_ && _); [right|left]; reflexivity.
Qed.

(** C3 (evaluation at the failing input): with a forced test size the
    calculators write to the caller's [testSize] object.  One run of
    [linearProps] leaves its width at 372 instead of 800, so a second run
    on the same props tiles 17 bp per row in 158 px where the first tiled
    37 bp in 372 px.  [circularProps] halves the forced width on every run
    in the same way, and run after [linearProps], as [render] does, it
    returns the radius [186 * 0.34] where on the untouched props it
    returns 136. *)
Theorem layout_runs_disagree_with_testSize :
  let run1 := linearProps forcedBoth in
  let run2 := linearProps (snd run1) in
  (bpsPerBlock <$> returned run1 = Some 37
   /\ width <$> (l_size <$> returned run1) = Some 372)
  /\ p_testSize (props (snd run1)) = Some {| height := 600; width := 372 |}
  /\ (bpsPerBlock <$> returned run2 = Some 17
      /\ width <$> (l_size <$> returned run2) = Some 158)
  /\ p_testSize (props (snd run2)) = Some {| height := 600; width := 158 |}
  /\ (forall (E L : float -> float) (P : float -> float -> float),
        let circ1 := circularProps E L P forcedBoth in
        let circ2 := circularProps E L P (snd circ1) in
        radius <$> returned circ1 = Some 136
        /\ p_testSize (props (snd circ1)) = Some {| height := 600; width := 400 |}
        /\ radius <$> returned circ2 = Some 68
        /\ radius <$> returned (circularProps E L P (snd run1)) = Some (186 * 0.34)).
Proof.
  repeat split; vm_compute; reflexivity.
Qed.

Local Close Scope float_scope.

(** ** Facts about binary64 arithmetic *)

Lemma shr_1_nonneg mrs : 0 <= shr_m mrs -> 0 <= shr_m (shr_1 mrs).
Proof.
  destruct mrs as [m r s]. simpl. intros H.
  destruct m as [|p|p]; simpl; [lia| |lia].
  destruct p; simpl; lia.
Qed.

Lemma iter_pos_invariant {A} (P : A -> Prop) (f : A -> A) :
  (forall a, P a -> P (f a)) -> forall n a, P a -> P (SpecFloat.iter_pos f n a).
Proof.
  intros Hf. induction n as [n IH|n IH|]; intros a Ha; simpl; auto.
Qed.

Lemma shr_nonneg mrs e n : 0 <= shr_m mrs -> 0 <= shr_m (fst (shr mrs e n)).
Proof.
  intros H. unfold shr. destruct n; simpl; try assumption.
  apply (iter_pos_invariant (fun r => 0 <= shr_m r)); [apply shr_1_nonneg | assumption].
Qed.

Lemma shr_record_of_loc_m m l : shr_m (shr_record_of_loc m l) = m.
Proof. destruct l as [|[]]; reflexivity. Qed.

Lemma shr_fexp_nonneg m e l : 0 <= m -> 0 <= shr_m (fst (shr_fexp prec emax m e l)).
Proof.
  intros H. unfold shr_fexp. apply shr_nonneg. rewrite shr_record_of_loc_m. exact H.
Qed.

Lemma round_nearest_even_nonneg m l : 0 <= m -> 0 <= round_nearest_even m l.
Proof.
  intros H. unfold round_nearest_even.
  destruct l as [|[]]; try destruct (Z.even m); lia.
Qed.

Lemma binary_round_aux_signed sx mx ex lx :
  0 <= mx -> signed sx (binary_round_aux prec emax sx mx ex lx).
Proof.
  intros H. unfold binary_round_aux.
  pose proof (shr_fexp_nonneg mx ex lx H) as H1.
  destruct (shr_fexp prec emax mx ex lx) as [mrs' e']. simpl in H1.
  pose proof (shr_fexp_nonneg _ e' loc_Exact
                (round_nearest_even_nonneg _ (loc_of_shr_record mrs') H1)) as H2.
  destruct (shr_fexp prec emax _ e' loc_Exact) as [mrs'' e'']. simpl in H2.
  destruct (shr_m mrs'') as [|p|p]; [reflexivity| |lia].
  destruct (e'' <=? emax - prec); reflexivity.
Qed.

Lemma binary_normalize_signed m e : 0 <= m -> signed false (binary_normalize prec emax m e false).
Proof.
  intros H. destruct m as [|p|p]; [reflexivity| |lia].
  simpl. unfold binary_round.
  destruct (shl_align p e _) as [mz ez]. apply binary_round_aux_signed. lia.
Qed.

Lemma SFcompare_refl x : SFcompare x x = if sf_nan x then None else Some Eq.
Proof.
  destruct x as [s|s| |s m e]; simpl; try reflexivity.
  - destruct s; reflexivity.
  - rewrite Z.compare_refl.
    change (Pos.compare_cont Eq m m) with (Pos.compare m m).
    rewrite Pos.compare_refl. destruct s; reflexivity.
Qed.

Lemma is_nan_spec x : is_nan x = sf_nan (Prim2SF x).
Proof.
  unfold is_nan. rewrite FloatAxioms.eqb_spec. unfold SFeqb. rewrite SFcompare_refl.
  destruct (sf_nan (Prim2SF x)); reflexivity.
Qed.

Lemma SFcompare_antisym x y :
  SFcompare y x = option_map CompOpp (SFcompare x y).
Proof.
  destruct x as [s|s| |s m e], y as [s'|s'| |s' m' e']; simpl;
    try reflexivity;
    try (destruct s; reflexivity); try (destruct s'; reflexivity);
    try (destruct s, s'; reflexivity).
  destruct s, s'; try reflexivity; simpl.
  - rewrite (Z.compare_antisym e' e).
    destruct (e' ?= e) eqn:E; simpl; try reflexivity.
    change (Pos.compare_cont Eq m' m) with (Pos.compare m' m).
    change (Pos.compare_cont Eq m m') with (Pos.compare m m').
    rewrite (Pos.compare_antisym m' m). destruct (m' ?= m)%positive; reflexivity.
  - rewrite (Z.compare_antisym e' e).
    destruct (e' ?= e) eqn:E; simpl; try reflexivity.
    change (Pos.compare_cont Eq m' m) with (Pos.compare m' m).
    change (Pos.compare_cont Eq m m') with (Pos.compare m m').
    rewrite (Pos.compare_antisym m' m). destruct (m' ?= m)%positive; reflexivity.
Qed.

Local Open Scope float_scope.

Lemma ltb_leb x y : (x <? y) = true -> (x <=? y) = true.
Proof.
  rewrite FloatAxioms.ltb_spec, FloatAxioms.leb_spec. unfold SFltb, SFleb.
  destruct (SFcompare (Prim2SF x) (Prim2SF y)) as [[]|]; congruence.
Qed.

Lemma SFcompare_total x y :
  sf_nan x = false -> sf_nan y = false -> exists c, SFcompare x y = Some c.
Proof.
  destruct x as [s|s| |s m e], y as [s'|s'| |s' m' e']; simpl;
    try discriminate; intros _ _; eauto.
Qed.

(** Two numbers that are not NaN and of which neither is below the other
    compare equal. *)
Lemma not_ltb_leb x y :
  is_nan x = false -> is_nan y = false ->
  (x <? y) = false -> (y <? x) = false ->
  (x <=? y) = true /\ (y <=? x) = true.
Proof.
  rewrite !is_nan_spec, !FloatAxioms.ltb_spec, !FloatAxioms.leb_spec. unfold SFltb, SFleb.
  intros Hx Hy.
  rewrite (SFcompare_antisym (Prim2SF x) (Prim2SF y)).
  destruct (SFcompare_total _ _ Hx Hy) as [c ->]. simpl.
  destruct c; simpl; try discriminate; intros; split; reflexivity.
Qed.

Lemma Math_max_one_ge (b : float) : is_nan b = false -> (1 <=? Math_max 1 b) = true.
Proof.
  intros Hb. unfold Math_max. rewrite Hb.
  change (is_nan 1) with false. simpl.
  destruct (1 <? b) eqn:H1; [apply ltb_leb, H1|].
  destruct (b <? 1) eqn:H2; reflexivity.
Qed.

Lemma Math_min_le_r (r y : float) :
  is_nan r = false -> is_nan y = false -> (Math_min r y <=? y) = true.
Proof.
  intros Hr Hy. unfold Math_min. rewrite Hr, Hy. simpl.
  destruct (r <? y) eqn:H1; [apply ltb_leb, H1|].
  destruct (y <? r) eqn:H2.
  - destruct (not_ltb_leb y y Hy Hy) as [H _]; try assumption;
      rewrite FloatAxioms.ltb_spec; unfold SFltb; rewrite SFcompare_refl;
      rewrite <- is_nan_spec, Hy; reflexivity.
  - destruct (not_ltb_leb r y Hr Hy H1 H2) as [Hle Hge].
    destruct (get_sign r); [exact Hle|].
    destruct (not_ltb_leb y y Hy Hy) as [H _]; try assumption;
      rewrite FloatAxioms.ltb_spec; unfold SFltb; rewrite SFcompare_refl;
      rewrite <- is_nan_spec, Hy; reflexivity.
Qed.

Local Close Scope float_scope.

Lemma signed_not_nan s x : signed s x -> sf_nan x = false.
Proof. destruct x; simpl; [reflexivity..|contradiction|reflexivity]. Qed.

Lemma binary_round_aux_not_nan sx mx ex lx :
  0 <= mx -> sf_nan (binary_round_aux prec emax sx mx ex lx) = false.
Proof. intros H. eapply signed_not_nan, binary_round_aux_signed, H. Qed.

Lemma binary_normalize_not_nan m e :
  sf_nan (binary_normalize prec emax m e false) = false.
Proof.
  destruct m as [|p|p]; [reflexivity| |]; simpl; unfold binary_round;
    destruct (shl_align p e _) as [mz ez]; apply binary_round_aux_not_nan; lia.
Qed.

Lemma SFdiv_core_binary_nonneg m1 e1 m2 e2 :
  0 <= fst (fst (SFdiv_core_binary prec emax (Zpos m1) e1 (Zpos m2) e2)).
Proof.
  unfold SFdiv_core_binary.
  set (s := _ - _ - _).
  set (m' := match s with Zpos _ => Z.shiftl (Zpos m1) s | Z0 => Zpos m1 | Zneg _ => 0 end).
  assert (Hm' : 0 <= m').
  { subst m'. destruct s; [lia| |lia]. apply Z.shiftl_nonneg. lia. }
  pose proof (Z.div_pos m' (Zpos m2) Hm' ltac:(lia)) as Hq.
  unfold Z.div in Hq. destruct (Z.div_eucl m' (Zpos m2)) as [q r]. exact Hq.
Qed.

Lemma SFmul_not_nan x y :
  sf_nan x = false -> sf_finite y -> sf_nan (SF64mul x y) = false.
Proof.
  destruct y as [| | |sy my ey]; try contradiction. intros Hx _.
  destruct x as [sx|sx| |sx mx ex]; try discriminate; try reflexivity.
  apply binary_round_aux_not_nan. lia.
Qed.

Lemma SFdiv_not_nan x y :
  sf_nan x = false -> sf_finite y -> sf_nan (SF64div x y) = false.
Proof.
  destruct y as [| | |sy my ey]; try contradiction. intros Hx _.
  destruct x as [sx|sx| |sx mx ex]; try discriminate; try reflexivity.
  unfold SF64div, SFdiv.
  pose proof (SFdiv_core_binary_nonneg mx ex my ey) as H.
  destruct (SFdiv_core_binary prec emax (Zpos mx) ex (Zpos my) ey) as [[mz ez] lz].
  apply binary_round_aux_not_nan, H.
Qed.

Lemma SFadd_not_nan x y :
  sf_nan x = false -> sf_finite y -> sf_nan (SF64add x y) = false.
Proof.
  destruct y as [| | |sy my ey]; try contradiction. intros Hx _.
  destruct x as [sx|sx| |sx mx ex]; try discriminate; try reflexivity.
  apply binary_normalize_not_nan.
Qed.

Local Open Scope float_scope.

Lemma mul_not_nan x y :
  is_nan x = false -> sf_finite (Prim2SF y) -> is_nan (x * y) = false.
Proof. rewrite !is_nan_spec, mul_spec. apply SFmul_not_nan. Qed.

Lemma div_not_nan x y :
  is_nan x = false -> sf_finite (Prim2SF y) -> is_nan (x / y) = false.
Proof. rewrite !is_nan_spec, div_spec. apply SFdiv_not_nan. Qed.

Lemma add_not_nan x y :
  is_nan x = false -> sf_finite (Prim2SF y) -> is_nan (x + y) = false.
Proof. rewrite !is_nan_spec, add_spec. apply SFadd_not_nan. Qed.

Lemma float_of_Z_not_nan n : is_nan (float_of_Z n) = false.
Proof.
  unfold float_of_Z. destruct (n <? 0)%Z; rewrite is_nan_spec.
  - rewrite opp_spec, of_uint63_spec.
    pose proof (binary_normalize_not_nan (Uint63.to_Z (Uint63.of_Z (- n))) 0) as H.
    destruct (binary_normalize _ _ _ _ _); try discriminate; reflexivity.
  - rewrite of_uint63_spec. apply binary_normalize_not_nan.
Qed.

Lemma Math_round_not_nan x : is_nan x = false -> is_nan (Math_round x) = false.
Proof.
  intros Hx. unfold Math_round.
  destruct (Prim2SF x) as [s|s| |s m e]; try exact Hx.
  destruct (0 <=? e)%Z; [exact Hx|].
  destruct (round_half_up s m e =? 0)%Z; [destruct s; reflexivity|].
  apply float_of_Z_not_nan.
Qed.

Local Close Scope float_scope.

Lemma digits2_pos_bounds p :
  2 ^ (Zpos (digits2_pos p) - 1) <= Zpos p < 2 ^ Zpos (digits2_pos p).
Proof.
  induction p as [p IH|p IH|]; simpl digits2_pos; [| |simpl; lia];
    rewrite Pos2Z.inj_succ;
    replace (Z.succ (Zpos (digits2_pos p)) - 1)
      with (Z.succ (Zpos (digits2_pos p) - 1)) by lia;
    rewrite !Z.pow_succ_r by lia; lia.
Qed.

Lemma Zdigits2_normal q : 2 ^ 52 <= q < 2 ^ 53 -> Zdigits2 q = 53.
Proof.
  intros [Hlo Hhi]. destruct q as [|p|p]; try (simpl in Hlo; lia).
  simpl. pose proof (digits2_pos_bounds p) as [Bl Bh].
  destruct (Z_lt_le_dec (Zpos (digits2_pos p)) 53) as [Hd|Hd].
  - pose proof (Z.pow_le_mono_r 2 (Zpos (digits2_pos p)) 52 ltac:(lia) ltac:(lia)). lia.
  - destruct (Z_le_lt_eq_dec _ _ Hd) as [Hd'|Hd']; [|congruence].
    pose proof (Z.pow_le_mono_r 2 53 (Zpos (digits2_pos p) - 1) ltac:(lia) ltac:(lia)). lia.
Qed.

Lemma round_nearest_even_cases m l :
  round_nearest_even m l = m \/ round_nearest_even m l = m + 1.
Proof. destruct l as [|[]]; simpl; try destruct (Z.even m); auto. Qed.

(** Arithmetic on the binary64 format constants. *)
Ltac binary64_lia :=
  unfold fexp, SpecFloat.emin in *;
  change prec with 53 in *; change emax with 1024 in *; lia.

Lemma fexp_normal d e :
  d = 53 -> -1074 <= e -> fexp prec emax (d + e) - e = 0.
Proof. intros -> He. binary64_lia. Qed.

(** Rounding a 53-bit mantissa keeps it at 53 bits and does not lower the
    exponent. *)
Lemma binary_round_aux_normal_shape s q e l :
  2 ^ 52 <= q < 2 ^ 53 -> -1074 <= e <= 970 ->
  exists m' e', binary_round_aux prec emax s q e l = S754_finite s m' e'
                /\ e <= e' /\ 2 ^ 52 <= Zpos m'.
Proof.
  intros Hq He. unfold binary_round_aux, shr_fexp.
  rewrite (fexp_normal _ e (Zdigits2_normal q Hq)) by lia.
  cbn [shr]. rewrite shr_record_of_loc_m.
  set (q1 := round_nearest_even q _).
  assert (Hq1 : 2 ^ 52 <= q1 < 2 ^ 53 \/ q1 = 2 ^ 53).
  { subst q1. destruct (round_nearest_even_cases q (loc_of_shr_record (shr_record_of_loc q l)))
      as [-> | ->]; lia. }
  destruct Hq1 as [Hq1 | ->].
  - rewrite (fexp_normal _ e (Zdigits2_normal q1 Hq1)) by lia.
    cbn [shr shr_record_of_loc shr_m].
    destruct q1 as [|p|p]; try (simpl in Hq1; lia).
    replace (e <=? emax - prec) with true.
    + exists p, e. split; [reflexivity|]. lia.
    + symmetry. apply Z.leb_le. binary64_lia.
  - change (Zdigits2 (2 ^ 53)) with 54.
    replace (fexp prec emax (54 + e) - e) with 1
      by binary64_lia.
    cbn.
    replace (e + 1 <=? emax - prec) with true.
    + eexists _, (e + 1). split; [reflexivity|]. split; [lia|]. simpl. lia.
    + symmetry. apply Z.leb_le. binary64_lia.
Qed.

Lemma binary_round_aux_normal s q e l :
  2 ^ 52 <= q < 2 ^ 53 -> -1074 <= e <= 970 ->
  sf_finite (binary_round_aux prec emax s q e l).
Proof.
  intros Hq He.
  destruct (binary_round_aux_normal_shape s q e l Hq He) as (m' & e' & -> & _).
  exact I.
Qed.

Lemma SFcompare_finite_lt m1 e m2 :
  SFltb (S754_finite false m1 e) (S754_finite false m2 e) = true -> Zpos m1 < Zpos m2.
Proof.
  unfold SFltb, SFcompare. rewrite Z.compare_refl.
  change (Pos.compare_cont Eq m1 m2) with (Pos.compare m1 m2).
  destruct (Pos.compare_spec m1 m2); try discriminate. lia.
Qed.

Lemma SFcompare_finite_le m1 e m2 :
  SFleb (S754_finite false m1 e) (S754_finite false m2 e) = true -> Zpos m1 <= Zpos m2.
Proof.
  unfold SFleb, SFcompare. rewrite Z.compare_refl.
  change (Pos.compare_cont Eq m1 m2) with (Pos.compare m1 m2).
  destruct (Pos.compare_spec m1 m2); try discriminate; lia.
Qed.

Lemma SFltb_finite_exp m1 e1 m2 e2 :
  SFltb (S754_finite false m1 e1) (S754_finite false m2 e2) = true -> e1 <= e2.
Proof.
  unfold SFltb, SFcompare.
  destruct (Z.compare_spec e1 e2); try discriminate; lia.
Qed.

Lemma SFleb_finite_exp m1 e1 m2 e2 :
  SFleb (S754_finite false m1 e1) (S754_finite false m2 e2) = true -> e1 <= e2.
Proof.
  unfold SFleb, SFcompare.
  destruct (Z.compare_spec e1 e2); try discriminate; lia.
Qed.

Local Open Scope float_scope.

Lemma zoom_factor_finite (zoom : float) :
  (70 <? zoom) = true -> (zoom <=? 100) = true -> sf_finite (Prim2SF (70 / zoom)).
Proof.
  intros H1 H2. pose proof (Prim2SF_valid zoom) as Hv.
  rewrite FloatAxioms.ltb_spec in H1. rewrite FloatAxioms.leb_spec in H2. rewrite div_spec.
  change (Prim2SF 70) with (S754_finite false 4925812092436480 (-46)) in *.
  change (Prim2SF 100) with (S754_finite false 7036874417766400 (-46)) in *.
  destruct (Prim2SF zoom) as [s|s| |s m e].
  1: destruct s; discriminate H1.
  1: destruct s; [discriminate H1|]; discriminate H2.
  1: discriminate H1.
  destruct s; [discriminate H1|].
  assert (He : e = (-46)%Z).
  { apply SFltb_finite_exp in H1. apply SFleb_finite_exp in H2. lia. }
  subst e.
  apply SFcompare_finite_lt in H1. apply SFcompare_finite_le in H2.
(*#*)
    unfold valid_binary, bounded, canonical_mantissa in Hv.
    apply andb_prop in Hv. destruct Hv as [Hc _]. apply Z.eqb_eq in Hc.
(*#*)
    assert (Hd : Zpos (digits2_pos m) = 53%Z).
    { unfold fexp, SpecFloat.emin in Hc. 
(*#*) change prec with 53%Z in Hc.
(*#*)      change emax with 1024%Z in Hc. 
(*#*) lia. }
(*#*)
    unfold SF64div, SFdiv, SFdiv_core_binary.
(*#*)
    change (Zdigits2 (Zpos m)) with (Zpos (digits2_pos m)). rewrite Hd.
(*#*)
    change (Zdigits2 4925812092436480) with 53%Z.
(*#*)
    change (Z.min (fexp prec emax (53 + -46 - (53 + -46))) (-46 - -46)) with (-53)%Z.
(*#*)
    change (-46 - -46 - -53)%Z with 53%Z. cbv iota.
(*#*)
    change (Z.shiftl 4925812092436480 53) with (4925812092436480 * 2 ^ 53)%Z.
(*#*)
    set (M := (4925812092436480 * 2 ^ 53)%Z).
    assert (Hq : (2 ^ 52 <= M / Zpos m < 2 ^ 53)%Z).
    { split.
      - apply Z.div_le_lower_bound; [lia|]. subst M. lia.
      - apply Z.div_lt_upper_bound; [lia|]. subst M. lia. }
(*#*)
    unfold Z.div in Hq. destruct (Z.div_eucl M (Zpos m)) as [q r].
    apply binary_round_aux_normal; [exact Hq|lia].
Qed.

(** ** Linear layout: bounds *)

Lemma leb_not_nan x y : (x <=? y) = true -> is_nan x = false /\ is_nan y = false.
Proof.
  rewrite FloatAxioms.leb_spec, !is_nan_spec. unfold SFleb.
  destruct (Prim2SF x), (Prim2SF y); simpl; try discriminate; auto.
Qed.

Lemma truthy_or_not_nan r d :
  is_nan d = false -> is_nan (if num_truthy r then r else d) = false.
Proof.
  intros Hd. unfold num_truthy.
  destruct (is_zero r); [exact Hd|]. destruct (is_nan r) eqn:E; [exact Hd|exact E].
Qed.

(** The font size is capped at 18 for every zoom that is a number. *)
Lemma seqFontSize_le_18 (zoom : float) :
  is_nan zoom = false ->
  (Math_min (Math_round (zoom * 0.1 + 9.5)) 18 <=? 18) = true.
Proof.
  intros Hz. apply Math_min_le_r; [|reflexivity].
  apply Math_round_not_nan, add_not_nan; [|exact I].
  apply mul_not_nan; [exact Hz|exact I].
Qed.

(** The zoom correction of a tiling that is a number is a number, for
    zoom levels up to 100. *)
Lemma zoom_correction_not_nan (zoom b : float) :
  (zoom <=? 100) = true -> is_nan b = false ->
  is_nan (if zoom <=? 5 then b * 3
          else if zoom <=? 10 then b * 2
          else if 70 <? zoom then Math_round (b * (70 / zoom))
          else b) = false.
Proof.
  intros Hz Hb.
  destruct (zoom <=? 5); [apply mul_not_nan; [exact Hb|exact I]|].
  destruct (zoom <=? 10); [apply mul_not_nan; [exact Hb|exact I]|].
  destruct (70 <? zoom) eqn:H70; [|exact Hb].
  apply Math_round_not_nan, mul_not_nan; [exact Hb|].
  apply zoom_factor_finite; assumption.
Qed.

Lemma linearLayout_bpsPerBlock_ge_1 seq seqType viewer zoom size :
  (zoom <=? 100) = true ->
  (1 <=? bpsPerBlock (linearLayout seq seqType viewer zoom size)) = true.
Proof.
  intros Hz. unfold linearLayout. cbv zeta. cbn [bpsPerBlock].
  apply Math_max_one_ge, zoom_correction_not_nan; [exact Hz|].
  match goal with
  | |- is_nan (if _ then Math_round (?b / 3) else ?b) = false =>
      assert (Hb : is_nan b = false) by (apply truthy_or_not_nan; reflexivity)
  end.
  destruct (String.eqb seqType "aa"); [|exact Hb].
  apply Math_round_not_nan, div_not_nan; [exact Hb|exact I].
Qed.

(** C7: for every viewport size (forced or observed) and every linear zoom
    in [0, 100], [linearProps] returns a layout with [bpsPerBlock >= 1] and
    [seqFontSize <= 18], where
    [seqFontSize = min(round(zoom * 0.1 + 9.5), 18)]. *)
Theorem linearProps_bounds (c : Component) :
  let zoom := zoom_linear (p_zoom (props c)) in
  (0 <=? zoom) = true -> (zoom <=? 100) = true ->
  exists r : LinearLayout,
    fst (linearProps c) = inr r
    /\ (1 <=? bpsPerBlock r) = true
    /\ (seqFontSize r <=? 18) = true
    /\ seqFontSize r = Math_min (Math_round (zoom * 0.1 + 9.5)) 18.
Proof.
  intros zoom H0 H100. eexists. split; [reflexivity|].
  split; [apply linearLayout_bpsPerBlock_ge_1, H100|].
  split; [|reflexivity].
  apply seqFontSize_le_18. apply (leb_not_nan _ _ H100).
Qed.

Lemma linearProps_bounds_sample :
  exists r : LinearLayout,
    fst (linearProps (mount (sampleProps linear "dna" 10000 800 600 50 None None))) = inr r
    /\ (1 <=? bpsPerBlock r) = true
    /\ (seqFontSize r <=? 18) = true
    /\ seqFontSize r = Math_min (Math_round (50 * 0.1 + 9.5)) 18.
Proof.
  apply (linearProps_bounds (mount (sampleProps linear "dna" 10000 800 600 50 None None)));
    reflexivity.
Defined.

Local Close Scope float_scope.

(** ** Signs *)

Lemma zero_or_pos_not_nan x : zero_or_pos x -> sf_nan x = false.
Proof. destruct x; simpl; try reflexivity; contradiction. Qed.

Lemma signed_zero_or_pos x : signed false x -> zero_or_pos x.
Proof. destruct x as [s|s| |s m e]; simpl; try intros ->; try exact I; auto. Qed.

Lemma SFmul_zero_or_pos x y :
  zero_or_pos x -> pos_finite y -> zero_or_pos (SF64mul x y).
Proof.
  destruct y as [| | |[] my ey]; try contradiction. intros Hx _.
  destruct x as [sx|[]| |[] mx ex]; try contradiction; try exact I.
  apply signed_zero_or_pos, binary_round_aux_signed. lia.
Qed.

Lemma SFdiv_zero_or_pos x y :
  zero_or_pos x -> pos_finite y -> zero_or_pos (SF64div x y).
Proof.
  destruct y as [| | |[] my ey]; try contradiction. intros Hx _.
  destruct x as [sx|[]| |[] mx ex]; try contradiction; try exact I.
  unfold SF64div, SFdiv.
  pose proof (SFdiv_core_binary_nonneg mx ex my ey) as H.
  destruct (SFdiv_core_binary prec emax (Zpos mx) ex (Zpos my) ey) as [[mz ez] lz].
  apply signed_zero_or_pos, binary_round_aux_signed, H.
Qed.

Local Open Scope float_scope.

Lemma leb_zero_spec x : (0 <=? x) = true -> zero_or_pos (Prim2SF x).
Proof.
  rewrite FloatAxioms.leb_spec. change (Prim2SF 0) with (S754_zero false).
  destruct (Prim2SF x) as [s|[]| |[] m e]; simpl; try discriminate; auto.
Qed.

Lemma zero_or_pos_ltb x :
  zero_or_pos (Prim2SF x) -> (x =? 0) = false -> (0 <? x) = true.
Proof.
  rewrite FloatAxioms.eqb_spec, FloatAxioms.ltb_spec.
  change (Prim2SF 0) with (S754_zero false).
  destruct (Prim2SF x) as [s|[]| |[] m e]; simpl; try contradiction;
    try discriminate; reflexivity.
Qed.

Lemma Math_min_cases x y :
  is_nan x = false -> is_nan y = false -> Math_min x y = x \/ Math_min x y = y.
Proof.
  intros Hx Hy. unfold Math_min. rewrite Hx, Hy. simpl.
  destruct (x <? y); [auto|]. destruct (y <? x); [auto|].
  destruct (get_sign x); auto.
Qed.

Lemma Math_min_zero_or_pos x y :
  zero_or_pos (Prim2SF x) -> zero_or_pos (Prim2SF y) ->
  zero_or_pos (Prim2SF (Math_min x y)).
Proof.
  intros Hx Hy.
  destruct (Math_min_cases x y) as [-> | ->]; try assumption;
    rewrite is_nan_spec; apply zero_or_pos_not_nan; assumption.
Qed.

(** ** Circular layout *)

Lemma circularLayout_size E L P seq viewer zoom size :
  c_size (circularLayout E L P seq viewer zoom size) = halved viewer size.
Proof. reflexivity. Qed.

Lemma circularLayout_radius E L P seq viewer zoom size :
  radius (circularLayout E L P seq viewer zoom size)
  = if rawRadius (halved viewer size) =? 0 then 1 else rawRadius (halved viewer size).
Proof. reflexivity. Qed.

Lemma halved_zero_or_pos viewer size :
  zero_or_pos (Prim2SF (height size)) -> zero_or_pos (Prim2SF (width size)) ->
  zero_or_pos (Prim2SF (height (halved viewer size)))
  /\ zero_or_pos (Prim2SF (width (halved viewer size))).
Proof.
  intros Hh Hw. unfold halved.
  destruct (includes (viewer_string viewer) "both"); [|auto].
  split; [exact Hh|]. cbn [width]. rewrite div_spec.
  apply SFdiv_zero_or_pos; [exact Hw|exact I].
Qed.

Lemma rawRadius_zero_or_pos size :
  zero_or_pos (Prim2SF (height size)) -> zero_or_pos (Prim2SF (width size)) ->
  zero_or_pos (Prim2SF (rawRadius size)).
Proof.
  intros Hh Hw. unfold rawRadius. rewrite mul_spec.
  apply SFmul_zero_or_pos; [|exact I]. apply Math_min_zero_or_pos; assumption.
Qed.

Lemma guarded_radius_nonzero (raw : float) :
  ((if raw =? 0 then 1 else raw) =? 0) = false.
Proof. destruct (raw =? 0) eqn:E; [reflexivity|exact E]. Qed.

Lemma guarded_radius_positive (raw : float) :
  zero_or_pos (Prim2SF raw) -> (0 <? (if raw =? 0 then 1 else raw)) = true.
Proof.
  intros H. destruct (raw =? 0) eqn:E; [reflexivity|].
  apply zero_or_pos_ltb; assumption.
Qed.

(** C6 (counterexample): in a 1 x 1 viewport the returned radius is
    [1 * 0.34], which is below 1. *)
Lemma radius_below_one_in_small_viewport :
  let c := mount (sampleProps circular "dna" 4361 1 1 50 None None) in
  ~ (forall (E L : float -> float) (P : float -> float -> float),
       exists r : CircularLayout,
         fst (circularProps E L P c) = inr r /\ (1 <=? radius r) = true).
Proof.
  intros c H.
  destruct (H (fun x => x) (fun x => x) (fun x _ => x)) as (r & Hr & Hge).
  injection Hr as <-. vm_compute in Hge. discriminate Hge.
Qed.

(** C6 (amended): for every sequence and every viewport size (the forced
    test size when given, the observed size otherwise) the calculator
    works on the viewport with its width halved in the modes showing both
    layouts, and returns the radius [limitingDim * 0.34], with
    [limitingDim = min(height, width)] of that size, except that a product
    that is exactly zero is returned as 1.  The radius is therefore never
    zero, it is positive whenever height and width are non-negative
    numbers, and it is at least 1 exactly when the product is zero or is
    itself at least 1. *)
Theorem circularProps_radius (E L : float -> float) (P : float -> float -> float)
    (c : Component) :
  let viewport := initialSize (props c) in
  let halving := includes (viewer_string (p_viewer (props c))) "both" in
  let h := height viewport in
  let w := if halving then width viewport / 2 else width viewport in
  let raw := Math_min h w * 0.34 in
  exists r : CircularLayout,
    fst (circularProps E L P c) = inr r
    /\ c_size r = halved (p_viewer (props c)) viewport
    /\ height (c_size r) = h
    /\ width (c_size r) = w
    /\ radius r = (if raw =? 0 then 1 else raw)
    /\ (radius r =? 0) = false
    /\ ((0 <=? height viewport) = true -> (0 <=? width viewport) = true ->
        (0 <? radius r) = true)
    /\ ((1 <=? radius r) = true <-> (raw =? 0) = true \/ (1 <=? raw) = true).
Proof.
  intros viewport halving h w raw. eexists. split; [reflexivity|].
  rewrite circularLayout_radius, circularLayout_size.
  assert (Hh : height (halved (p_viewer (props c)) viewport) = h)
    by (unfold halved; fold halving; destruct halving; reflexivity).
  assert (Hw : width (halved (p_viewer (props c)) viewport) = w)
    by (unfold halved; fold halving; subst w; destruct halving; reflexivity).
  assert (Hraw : rawRadius (halved (p_viewer (props c)) viewport) = raw)
    by (unfold rawRadius; rewrite Hh, Hw; reflexivity).
  fold viewport. rewrite Hraw.
  split; [reflexivity|]. split; [exact Hh|]. split; [exact Hw|].
  split; [reflexivity|].
  split; [apply guarded_radius_nonzero|].
  split.
  - intros H0h H0w. apply guarded_radius_positive. rewrite <- Hraw.
    destruct (halved_zero_or_pos (p_viewer (props c)) viewport
                (leb_zero_spec _ H0h) (leb_zero_spec _ H0w)) as [Hh' Hw'].
    apply rawRadius_zero_or_pos; assumption.
  - destruct (raw =? 0) eqn:Hzero.
    + split; [intros _; left; reflexivity | intros _; reflexivity].
    + split; [intros H1; right; exact H1 | intros [H1 | H1]; [discriminate H1 | exact H1]].
Qed.

(** C9 (counterexample): in a 0 x 0 viewport [min(height, width) * 0.34]
    is 0 but the returned radius is 1. *)
Lemma radius_of_empty_viewport :
  let c := mount (sampleProps circular "dna" 4361 0 0 50 None None) in
  ~ (forall (E L : float -> float) (P : float -> float -> float),
       exists r : CircularLayout,
         fst (circularProps E L P c) = inr r
         /\ radius r = Math_min (height (c_size r)) (width (c_size r)) * 0.34).
Proof.
  intros c H.
  destruct (H (fun x => x) (fun x => x) (fun x _ => x)) as (r & Hr & Heq).
  injection Hr as <-.
  apply (f_equal (fun x => x =? 1)) in Heq. vm_compute in Heq. discriminate Heq.
Qed.

(** C9 (amended): for every sequence and every viewport size (the forced
    test size when given, the observed size otherwise) the calculator
    returns [bpsOnArc = seqLength * beta] with
    [beta = exp(ln(50 / seqLength) / -(100 ** 0.83))], the viewport with
    its width halved in the modes showing both layouts as [size], its
    middle as center, and a radius equal to [min(height, width) * 0.34] of
    that size unless that product is exactly zero, in which case the
    radius is 1.  Radius, [bpsOnArc] and center do not depend on the
    circular zoom.  For a sequence of length 4361 in a 600 x 400 viewport
    the radius is exactly 136 in mode [circular] and [300 * 0.34] in mode
    [both]. *)
Theorem circularProps_formulas (E L : float -> float) (P : float -> float -> float)
    (c : Component) :
  let viewport := initialSize (props c) in
  let halving := includes (viewer_string (p_viewer (props c))) "both" in
  let h := height viewport in
  let w := if halving then width viewport / 2 else width viewport in
  exists r : CircularLayout,
    fst (circularProps E L P c) = inr r
    /\ (let n := seqLength (p_seq (props c)) in
        bpsOnArc r = n * E (L (50 / n) / - (P 100 0.83)))
    /\ c_size r = halved (p_viewer (props c)) viewport
    /\ height (c_size r) = h
    /\ width (c_size r) = w
    /\ center r = {| pt_x := w / 2; pt_y := h / 2 |}
    /\ (let raw := Math_min h w * 0.34 in
        radius r = if raw =? 0 then 1 else raw)
    /\ (forall z : float,
          exists r' : CircularLayout,
            fst (circularProps E L P (withCircularZoom z c)) = inr r'
            /\ radius r' = radius r
            /\ bpsOnArc r' = bpsOnArc r
            /\ center r' = center r)
    /\ radius <$> returned (circularProps E L P
                              (mount (sampleProps circular "dna" 4361 600 400 50 None None)))
       = Some 136
    /\ radius <$> returned (circularProps E L P
                              (mount (sampleProps both "dna" 4361 600 400 50 None None)))
       = Some (300 * 0.34).
Proof.
  intros viewport halving h w. eexists. split; [reflexivity|].
  assert (Hh : height (halved (p_viewer (props c)) viewport) = h)
    by (unfold halved; fold halving; destruct halving; reflexivity).
  assert (Hw : width (halved (p_viewer (props c)) viewport) = w)
    by (unfold halved; fold halving; subst w; destruct halving; reflexivity).
  split; [reflexivity|].
  rewrite circularLayout_radius, circularLayout_size. fold viewport.
  split; [reflexivity|]. split; [exact Hh|]. split; [exact Hw|].
  split.
  { rewrite <- Hh, <- Hw. reflexivity. }
  split.
  { unfold rawRadius. rewrite Hh, Hw. reflexivity. }
  split.
  - intros z. eexists. split; [reflexivity|]. repeat split.
  - split; vm_compute; reflexivity.
Qed.

Local Close Scope float_scope.

(** ** Integers as binary64 numbers *)

Lemma Pos_iter_xO p k : Zpos (Pos.iter xO p k) = Zpos p * 2 ^ Zpos k.
Proof.
  induction k as [|k IH] using Pos.peano_ind.
  - simpl. lia.
  - rewrite Pos.iter_succ, Pos2Z.inj_xO, IH, Pos2Z.inj_succ, Z.pow_succ_r by lia. lia.
Qed.

Lemma digits2_pos_le_53 p : Zpos p < 2 ^ 53 -> Zpos (digits2_pos p) <= 53.
Proof.
  intros H. pose proof (digits2_pos_bounds p) as [Bl _].
  destruct (Z_le_gt_dec (Zpos (digits2_pos p)) 53) as [Hd|Hd]; [exact Hd|].
  pose proof (Z.pow_le_mono_r 2 53 (Zpos (digits2_pos p) - 1) ltac:(lia) ltac:(lia)). lia.
Qed.

(** An integer in [1, 2^53) converts to a finite number of mantissa at
    least 2^52 and exponent at least -52, that is, to a number >= 1. *)
Lemma binary_normalize_int_shape p :
  Zpos p < 2 ^ 53 ->
  exists m' e', binary_normalize prec emax (Zpos p) 0 false = S754_finite false m' e'
                /\ -52 <= e' /\ 2 ^ 52 <= Zpos m'.
Proof.
  intros Hp.
  pose proof (digits2_pos_le_53 p Hp) as Hd.
  cbn [binary_normalize]. unfold binary_round.
  replace (fexp prec emax (Zpos (digits2_pos p) + 0)) with (Zpos (digits2_pos p) - 53)
    by binary64_lia.
  unfold shl_align.
  destruct (Zpos (digits2_pos p) - 53 - 0) as [|k|k] eqn:Ek; try lia.
  all: pose proof (digits2_pos_bounds p) as [Bl Bh].
  - (* 53 digits already *)
    assert (Hd53 : Zpos (digits2_pos p) = 53) by lia. rewrite Hd53 in Bl.
    destruct (binary_round_aux_normal_shape false (Zpos p) 0 loc_Exact) as (m' & e' & -> & He' & Hm');
      [change (53 - 1) with 52 in Bl; lia | lia |].
    exists m', e'. split; [reflexivity|]. lia.
  - (* shifted left by [k = 53 - digits] *)
    assert (Hk : Zpos k = 53 - Zpos (digits2_pos p)) by lia.
    assert (Hm : 2 ^ 52 <= Zpos (Pos.iter xO p k) < 2 ^ 53).
    { rewrite Pos_iter_xO.
      assert (E52 : 2 ^ 52 = 2 ^ (Zpos (digits2_pos p) - 1) * 2 ^ Zpos k)
        by (rewrite <- Z.pow_add_r by lia; f_equal; lia).
      assert (E53 : 2 ^ 53 = 2 ^ Zpos (digits2_pos p) * 2 ^ Zpos k)
        by (rewrite <- Z.pow_add_r by lia; f_equal; lia).
      rewrite E52, E53.
      pose proof (Z.pow_pos_nonneg 2 (Zpos k) ltac:(lia) ltac:(lia)) as Hpos.
      split.
      - apply Z.mul_le_mono_nonneg_r; [lia | exact Bl].
      - apply Z.mul_lt_mono_pos_r; [exact Hpos | exact Bh]. }
    destruct (binary_round_aux_normal_shape false (Zpos (Pos.iter xO p k))
                (Zpos (digits2_pos p) - 53) loc_Exact) as (m' & e' & -> & He' & Hm');
      [exact Hm | lia |].
    exists m', e'. split; [reflexivity|]. lia.
Qed.

Lemma SFleb_one m e :
  -52 <= e -> 2 ^ 52 <= Zpos m ->
  SFleb (S754_finite false 4503599627370496 (-52)) (S754_finite false m e) = true.
Proof.
  intros He Hm. unfold SFleb, SFcompare.
  destruct (Z.compare_spec (-52) e) as [E|E|E]; [|reflexivity|lia].
  change (Pos.compare_cont Eq ?a ?b) with (Pos.compare a b).
  rewrite Pos2Z.inj_compare.
  destruct (Z.compare_spec (Zpos 4503599627370496) (Zpos m)) as [E'|E'|E'];
    try reflexivity.
  change (2 ^ 52) with 4503599627370496 in Hm. lia.
Qed.

Lemma SFleb_one_exp m e :
  -52 < e -> SFleb (S754_finite false 4503599627370496 (-52)) (S754_finite false m e) = true.
Proof.
  intros He. unfold SFleb, SFcompare.
  destruct (Z.compare_spec (-52) e) as [E|E|E]; [lia|reflexivity|lia].
Qed.

Lemma to_Z_of_Z_small n : 0 <= n < 2 ^ 53 -> Uint63.to_Z (Uint63.of_Z n) = n.
Proof.
  intros Hn. rewrite Uint63.of_Z_spec. apply Z.mod_small.
  change Uint63.wB with (2 ^ 63). split; [lia|].
  apply Z.lt_trans with (2 ^ 53); [lia|reflexivity].
Qed.

Lemma Prim2SF_mantissa_bound x s m e :
  Prim2SF x = S754_finite s m e -> Zpos m < 2 ^ 53.
Proof.
  intros E. pose proof (Prim2SF_valid x) as Hv. rewrite E in Hv.
  unfold valid_binary, bounded, canonical_mantissa in Hv.
  apply andb_prop in Hv. destruct Hv as [Hc _]. apply Z.eqb_eq in Hc.
  assert (Hd : Zpos (digits2_pos m) <= 53).
  { unfold fexp, SpecFloat.emin in Hc. change prec with 53 in Hc.
    change emax with 1024 in Hc. lia. }
  pose proof (digits2_pos_bounds m) as [_ Bh].
  pose proof (Z.pow_le_mono_r 2 (Zpos (digits2_pos m)) 53 ltac:(lia) Hd). lia.
Qed.

Lemma round_half_up_bounds m e :
  e < 0 -> Zpos m < 2 ^ 53 -> 0 <= round_half_up false m e < 2 ^ 53.
Proof.
  intros He Hm. unfold round_half_up.
  set (d := 2 ^ (- e)).
  assert (Hd : 2 <= d).
  { subst d. change 2 with (2 ^ 1) at 1. apply Z.pow_le_mono_r; lia. }
  split.
  - apply Z.div_pos; lia.
  - apply Z.le_lt_trans with (Zpos m); [|exact Hm].
    apply Z.div_le_upper_bound; [lia|]. nia.
Qed.

Local Open Scope float_scope.

Lemma float_of_Z_ge_1 n : (1 <= n < 2 ^ 53)%Z -> (1 <=? float_of_Z n) = true.
Proof.
  intros Hn. unfold float_of_Z.
  replace (n <? 0)%Z with false by (symmetry; apply Z.ltb_ge; lia).
  rewrite FloatAxioms.leb_spec, of_uint63_spec, to_Z_of_Z_small by lia.
  change (Prim2SF 1) with (S754_finite false 4503599627370496 (-52)).
  destruct n as [|p|p]; try lia.
  destruct (binary_normalize_int_shape p) as (m' & e' & -> & He' & Hm'); [lia|].
  apply SFleb_one; assumption.
Qed.

Lemma float_of_Z_signed n : (0 <= n)%Z -> signed false (Prim2SF (float_of_Z n)).
Proof.
  intros Hn. unfold float_of_Z.
  replace (n <? 0)%Z with false by (symmetry; apply Z.ltb_ge; lia).
  rewrite of_uint63_spec. apply binary_normalize_signed.
  apply Uint63.to_Z_bounded.
Qed.

Lemma Math_round_signed x :
  signed false (Prim2SF x) -> signed false (Prim2SF (Math_round x)).
Proof.
  intros Hx. unfold Math_round.
  destruct (Prim2SF x) as [s|s| |s m e] eqn:E; try (rewrite E; exact Hx).
  simpl in Hx. subst s.
  destruct (0 <=? e)%Z eqn:He; [rewrite E; reflexivity|].
  apply Z.leb_gt in He.
  destruct (round_half_up false m e =? 0)%Z; [reflexivity|].
  apply float_of_Z_signed.
  apply (round_half_up_bounds m e He (Prim2SF_mantissa_bound x _ _ _ E)).
Qed.

Local Close Scope float_scope.

Lemma SFadd_signed x y :
  zero_or_pos x -> pos_finite y -> signed false (SF64add x y).
Proof.
  destruct y as [| | |[] my ey]; try contradiction. intros Hx _.
  destruct x as [sx|[]| |[] mx ex]; try contradiction; try reflexivity.
  unfold SF64add, SFadd, cond_Zopp.
  apply binary_normalize_signed. lia.
Qed.

(** A quotient of a non-negative number by a non-negative number without
    negative zero is not negative. *)
Lemma SFdiv_nan_or_pos x y :
  zero_or_pos x -> signed false y ->
  sf_nan (SF64div x y) = true \/ zero_or_pos (SF64div x y).
Proof.
  intros Hx Hy.
  destruct y as [sy|sy| |sy my ey]; simpl in Hy; try contradiction; subst sy;
    destruct x as [sx|[]| |[] mx ex]; try contradiction; simpl; auto.
  right. 
  pose proof (SFdiv_core_binary_nonneg mx ex my ey) as H.
  unfold SF64div, SFdiv.
  destruct (SFdiv_core_binary prec emax (Zpos mx) ex (Zpos my) ey) as [[mz ez] lz].
  apply signed_zero_or_pos, binary_round_aux_signed, H.
Qed.

Lemma SFmul_nan_or_pos x y :
  sf_nan x = true \/ zero_or_pos x -> pos_finite y ->
  sf_nan (SF64mul x y) = true \/ zero_or_pos (SF64mul x y).
Proof.
  intros [Hx|Hx] Hy.
  - left. destruct x; try discriminate. reflexivity.
  - right. apply SFmul_zero_or_pos; assumption.
Qed.

Local Open Scope float_scope.

(** ** Order *)

Local Close Scope float_scope.

Lemma SFleb_ltb_trans x y z :
  SFleb x y = true -> SFltb y z = true -> SFltb x z = true.
Proof.
  unfold SFleb, SFltb.
  destruct x as [sx|sx| |sx mx ex], y as [sy|sy| |sy my ey], z as [sz|sz| |sz mz ez];
    simpl; try discriminate; try reflexivity;
    repeat match goal with s : bool |- _ => destruct s end;
    simpl; try discriminate; try reflexivity.
  all: change (Pos.compare_cont Eq ?a ?b) with (Pos.compare a b).
  all: repeat match goal with
       | |- context [Z.compare ?a ?b] => destruct (Z.compare_spec a b)
       | |- context [Pos.compare ?a ?b] => destruct (Pos.compare_spec a b)
       end; simpl; try discriminate; try reflexivity; try lia.
Qed.

Local Open Scope float_scope.
Lemma ltb_not_leb x y : (x <? y) = true -> (y <=? x) = false.
Proof.
  rewrite FloatAxioms.ltb_spec, FloatAxioms.leb_spec. unfold SFltb, SFleb.
  rewrite (SFcompare_antisym (Prim2SF x) (Prim2SF y)).
  destruct (SFcompare (Prim2SF x) (Prim2SF y)) as [[]|]; simpl; congruence.
Qed.

Lemma leb_not_ltb x y : (x <=? y) = true -> (y <? x) = false.
Proof.
  rewrite FloatAxioms.ltb_spec, FloatAxioms.leb_spec. unfold SFltb, SFleb.
  rewrite (SFcompare_antisym (Prim2SF x) (Prim2SF y)).
  destruct (SFcompare (Prim2SF x) (Prim2SF y)) as [[]|]; simpl; congruence.
Qed.

Lemma leb_ltb_trans x y z : (x <=? y) = true -> (y <? z) = true -> (x <? z) = true.
Proof. rewrite FloatAxioms.leb_spec, !FloatAxioms.ltb_spec. apply SFleb_ltb_trans. Qed.

(** A number above [b] is not at or below a smaller [a]. *)
Lemma above_not_leb a b z : (a <? b) = true -> (b <? z) = true -> (z <=? a) = false.
Proof.
  intros Hab Hbz. destruct (z <=? a) eqn:E; [|reflexivity].
  pose proof (leb_ltb_trans z a b E Hab) as Hzb.
  apply ltb_leb in Hzb. rewrite (ltb_not_leb _ _ Hbz) in Hzb. discriminate.
Qed.

(** ** Linear layout: the tiling *)

Lemma num_truthy_spec x :
  num_truthy x = match Prim2SF x with
                 | S754_zero _ | S754_nan => false
                 | _ => true
                 end.
Proof.
  unfold num_truthy, is_zero. rewrite is_nan_spec, FloatAxioms.eqb_spec.
  change (Prim2SF zero) with (S754_zero false).
  destruct (Prim2SF x) as [s|[]| |[] m e]; reflexivity.
Qed.

Lemma roundOrOne_ge_1 x :
  sf_nan (Prim2SF x) = true \/ zero_or_pos (Prim2SF x) ->
  (1 <=? roundOrOne x) = true.
Proof.
  intros Hx. unfold roundOrOne, Math_round.
  destruct (Prim2SF x) as [s|s| |s m e] eqn:E.
  - rewrite num_truthy_spec, E. reflexivity.
  - rewrite num_truthy_spec, E. destruct Hx as [Hx|Hx]; [discriminate|].
    destruct s; [contradiction|]. rewrite FloatAxioms.leb_spec, E. reflexivity.
  - rewrite num_truthy_spec, E. reflexivity.
  - destruct Hx as [Hx|Hx]; [discriminate|].
    destruct s; [contradiction|].
    destruct (0 <=? e)%Z eqn:He.
    + rewrite num_truthy_spec, E. rewrite FloatAxioms.leb_spec, E.
      change (Prim2SF 1) with (S754_finite false 4503599627370496 (-52)).
      apply SFleb_one_exp. apply Z.leb_le in He. lia.
    + apply Z.leb_gt in He.
      pose proof (round_half_up_bounds m e He (Prim2SF_mantissa_bound x _ _ _ E)) as Hn.
      destruct (round_half_up false m e =? 0)%Z eqn:Hz; [reflexivity|].
      apply Z.eqb_neq in Hz.
      destruct (num_truthy _); [|reflexivity].
      apply float_of_Z_ge_1. lia.
Qed.

Lemma seqFontSize_signed zoom :
  (0 <=? zoom) = true ->
  signed false (Prim2SF (Math_min (Math_round (zoom * 0.1 + 9.5)) 18)).
Proof.
  intros Hz.
  assert (Hr : signed false (Prim2SF (Math_round (zoom * 0.1 + 9.5)))).
  { apply Math_round_signed. rewrite add_spec.
    apply SFadd_signed; [|exact I]. rewrite mul_spec.
    apply SFmul_zero_or_pos; [|exact I]. apply leb_zero_spec, Hz. }
  destruct (Math_min_cases (Math_round (zoom * 0.1 + 9.5)) 18) as [-> | ->];
    [ | reflexivity | exact Hr | reflexivity ].
  rewrite is_nan_spec. eapply signed_not_nan, Hr.
Qed.

(** For a non-negative width and a zoom of at least 0 the base tiling is at
    least 1. *)
Lemma baseTiling_ge_1 (w zoom : float) :
  zero_or_pos (Prim2SF w) -> (0 <=? zoom) = true ->
  (1 <=? roundOrOne (w / Math_min (Math_round (zoom * 0.1 + 9.5)) 18 * 1.4)) = true.
Proof.
  intros Hw Hz. apply roundOrOne_ge_1. rewrite mul_spec.
  apply SFmul_nan_or_pos; [|exact I]. rewrite div_spec.
  apply SFdiv_nan_or_pos; [exact Hw | apply seqFontSize_signed, Hz].
Qed.

Lemma halved_width_zero_or_pos viewer size :
  zero_or_pos (Prim2SF (width size)) ->
  zero_or_pos (Prim2SF (width (halved viewer size))).
Proof.
  intros Hw. unfold halved.
  destruct (includes (viewer_string viewer) "both"); [|exact Hw].
  cbn [width]. rewrite div_spec. apply SFdiv_zero_or_pos; [exact Hw|exact I].
Qed.

Lemma andb_false_r_if {A} (b : bool) (x y : A) : (if b && false then x else y) = y.
Proof. rewrite andb_false_r. reflexivity. Qed.

(** C8 (counterexample): an amino-acid sequence in a viewport 550 px wide
    at zoom 5.  The font size is 10 and the base tiling is
    [round(55 * 1.4) = 77].  The code rounds the division by 3,
    [round(77 / 3) = 26], and returns [26 * 3 = 78]; dividing by 3 and
    tripling as the claim words it gives 77. *)
Lemma amino_acid_tiling_is_rounded :
  let c := mount (sampleProps linear "aa" 10000 550 600 5 None None) in
  bpsPerBlock <$> returned (linearProps c) = Some 78
  /\ claimed_bpsPerBlock "aa" 5 550 = 77
  /\ (78 =? 77) = false.
Proof. repeat split; vm_compute; reflexivity. Qed.

Lemma linearLayout_bpsPerBlock seq seqType viewer zoom size :
  bpsPerBlock (linearLayout seq seqType viewer zoom size)
  = let base :=
      roundOrOne (width (halved viewer size)
                  / Math_min (Math_round (zoom * 0.1 + 9.5)) 18 * 1.4) in
    Math_max 1 (zoomCorrection zoom
                  (if String.eqb seqType "aa" then Math_round (base / 3) else base)).
Proof. reflexivity. Qed.

(** The four zoom tiers. *)
Lemma zoomCorrection_tiers (zoom b : float) :
  ((zoom <=? 5) = true -> zoomCorrection zoom b = b * 3)
  /\ ((5 <? zoom) = true -> (zoom <=? 10) = true -> zoomCorrection zoom b = b * 2)
  /\ ((10 <? zoom) = true -> (zoom <=? 70) = true -> zoomCorrection zoom b = b)
  /\ ((70 <? zoom) = true -> zoomCorrection zoom b = Math_round (b * (70 / zoom))).
Proof.
  unfold zoomCorrection. repeat split.
  - intros ->. reflexivity.
  - intros H5 H10. rewrite (ltb_not_leb _ _ H5), H10. reflexivity.
  - intros H10 H70.
    rewrite (above_not_leb 5 10 zoom eq_refl H10), (ltb_not_leb _ _ H10),
      (leb_not_ltb _ _ H70).
    reflexivity.
  - intros H70.
    rewrite (above_not_leb 5 70 zoom eq_refl H70), (above_not_leb 10 70 zoom eq_refl H70), H70.
    reflexivity.
Qed.

Lemma linearLayout_tiers seq seqType viewer zoom size0 :
  let size := halved viewer size0 in
  let r := linearLayout seq seqType viewer zoom size0 in
  let base := roundOrOne (width size / seqFontSize r * 1.4) in
  let adjusted := if String.eqb seqType "aa" then Math_round (base / 3) else base in
  ((0 <=? width size0) = true -> (0 <=? zoom) = true -> (1 <=? base) = true)
  /\ ((zoom <=? 5) = true -> bpsPerBlock r = Math_max 1 (adjusted * 3))
  /\ ((5 <? zoom) = true -> (zoom <=? 10) = true ->
      bpsPerBlock r = Math_max 1 (adjusted * 2))
  /\ ((10 <? zoom) = true -> (zoom <=? 70) = true ->
      bpsPerBlock r = Math_max 1 adjusted)
  /\ ((70 <? zoom) = true ->
      bpsPerBlock r = Math_max 1 (Math_round (adjusted * (70 / zoom)))).
Proof.
  intros size r base adjusted.
  change (bpsPerBlock r) with (Math_max 1 (zoomCorrection zoom adjusted)).
  destruct (zoomCorrection_tiers zoom adjusted) as (T1 & T2 & T3 & T4).
  split.
  { intros Hw Hz. apply baseTiling_ge_1; [|exact Hz].
    apply halved_width_zero_or_pos, leb_zero_spec, Hw. }
  split; [intros H; rewrite (T1 H); reflexivity|].
  split; [intros H H'; rewrite (T2 H H'); reflexivity|].
  split; [intros H H'; rewrite (T3 H H'); reflexivity|].
  intros H; rewrite (T4 H); reflexivity.
Qed.

(** C8 (amended): [bpsPerBlock] starts as
    [round((width / seqFontSize) * 1.4)], replaced by 1 when that is zero or
    not a number (hence at least 1 for non-negative widths and zooms); for
    amino-acid sequences it is divided by 3 and rounded to the nearest
    integer before the zoom correction; then zoom <= 5 triples it,
    5 < zoom <= 10 doubles it, 10 < zoom <= 70 leaves it and zoom > 70
    scales it by [70 / zoom] and rounds the result, with a final re-clamp
    to minimum 1.  The 28 px width reduction applies afterwards, only when
    [bpsPerBlock] is below the sequence length (and the width is non-zero),
    and [charWidth] is the possibly reduced width divided by [bpsPerBlock].
    For a dna sequence of length 10000, width 800, zoom 50 in mode linear:
    [seqFontSize = 15], [bpsPerBlock = 75] and the width is reduced to
    772. *)
Theorem linearProps_tiling (c : Component) :
  let p := props c in
  let zoom := zoom_linear (p_zoom p) in
  let size := halved (p_viewer p) (initialSize p) in
  let len := seqLength (p_seq p) in
  exists r : LinearLayout,
    fst (linearProps c) = inr r
    /\ seqFontSize r = Math_min (Math_round (zoom * 0.1 + 9.5)) 18
    /\ (let base := roundOrOne (width size / seqFontSize r * 1.4) in
        let adjusted :=
          if String.eqb (p_seqType p) "aa" then Math_round (base / 3) else base in
        ((0 <=? width (initialSize p)) = true -> (0 <=? zoom) = true ->
         (1 <=? base) = true)
        /\ ((zoom <=? 5) = true -> bpsPerBlock r = Math_max 1 (adjusted * 3))
        /\ ((5 <? zoom) = true -> (zoom <=? 10) = true ->
            bpsPerBlock r = Math_max 1 (adjusted * 2))
        /\ ((10 <? zoom) = true -> (zoom <=? 70) = true ->
            bpsPerBlock r = Math_max 1 adjusted)
        /\ ((70 <? zoom) = true ->
            bpsPerBlock r = Math_max 1 (Math_round (adjusted * (70 / zoom)))))
    /\ l_size r
       = (if num_truthy (width size) && (bpsPerBlock r <? len)
          then {| height := height size; width := width size - 28 |} else size)
    /\ (l_size r <> size -> (bpsPerBlock r <? len) = true)
    /\ charWidth r = width (l_size r) / bpsPerBlock r
    /\ (let run := linearProps (mount (sampleProps linear "dna" 10000 800 600 50 None None)) in
        seqFontSize <$> returned run = Some 15
        /\ bpsPerBlock <$> returned run = Some 75
        /\ width <$> (l_size <$> returned run) = Some (800 - 28)).
Proof.
  intros p zoom size len. eexists. split; [reflexivity|].
  split; [reflexivity|].
  split.
  { exact (linearLayout_tiers (p_seq p) (p_seqType p) (p_viewer p) zoom (initialSize p)). }
  split; [reflexivity|].
  split.
  { subst p zoom size len. intros Hne.
    match goal with
    | |- (?b <? ?l) = true => destruct (b <? l) eqn:E; [reflexivity|]
    end.
    exfalso. apply Hne. rewrite linearLayout_size, E. apply andb_false_r_if. }
  split; [reflexivity|].
  repeat split; vm_compute; reflexivity.
Qed.

Local Close Scope float_scope.

(* ===================================================================== *)
(** * Further properties *)


(** ** Sequences of mutator calls *)

Lemma recognized_dec (type : string) : {recognized type} + {~ recognized type}.
Proof.
  unfold recognized.
  destruct (String.eqb_spec type "LINEAR"); [left; tauto|].
  destruct (String.eqb_spec type "CIRCULAR"); [left; tauto|]. right. tauto.
Defined.

Lemma setCentralIndex_unrecognized (type : string) (value : Z) (c : Component) :
  ~ recognized type -> setCentralIndex type value c = (inl (InvalidAxisError type), c).
Proof.
  intros H. unfold setCentralIndex. rewrite (guard_unrecognized _ H). reflexivity.
Qed.

Lemma recognized_key (type : string) :
  recognized type ->
  toLowerCase type = "linear"%string \/ toLowerCase type = "circular"%string.
Proof. intros [-> | ->]; [left | right]; reflexivity. Qed.

(** What one [setCentralIndex] call does to the component. *)
Lemma setCentralIndex_exec (type : string) (value : Z) (c : Component) :
  exec (setCentralIndex type value) c = c
  \/ (recognized type
      /\ exec (setCentralIndex type value) c
         = exec (setState {| centralIndex := <[toLowerCase type := value]> (centralIndex (state c));
                             selection := selection (state c) |}) c).
Proof.
  destruct (recognized_dec type) as [Hr | Hn].
  - destruct (decide (centralIndex (state c) !! toLowerCase type = Some value)) as [He | Hne].
    + left. unfold exec. rewrite setCentralIndex_same by assumption. reflexivity.
    + right. split; [exact Hr|]. unfold exec.
      rewrite setCentralIndex_changed by assumption. reflexivity.
  - left. unfold exec. rewrite setCentralIndex_unrecognized by assumption. reflexivity.
Qed.

Lemma setSelection_exec (sel : JsObj) (c : Component) :
  exec (setSelection sel) c
  = exec (call (p_onSelection (props c)) (stripped sel))
      (match p_selection (props c) with
       | Some _ => c
       | None => exec (setState {| centralIndex := centralIndex (state c);
                                   selection := sel |}) c
       end).
Proof. unfold exec at 1. rewrite setSelection_run. reflexivity. Qed.

Lemma perform_props (a : Call) (c : Component) : props (exec (perform a) c) = props c.
Proof.
  destruct a as [type value | sel]; cbn [perform].
  - destruct (setCentralIndex_exec type value c) as [-> | [_ ->]]; reflexivity.
  - rewrite setSelection_exec. destruct (p_selection (props c)); reflexivity.
Qed.

Lemma performAll_snoc (calls : list Call) (a : Call) (c : Component) :
  performAll (calls ++ [a]) c = exec (perform a) (performAll calls c).
Proof. unfold performAll. rewrite foldl_app. reflexivity. Qed.

Lemma performAll_props (calls : list Call) (c : Component) :
  props (performAll calls c) = props c.
Proof.
  induction calls as [|a calls IH] using rev_ind; [reflexivity|].
  rewrite performAll_snoc, perform_props. exact IH.
Qed.

Lemma perform_centralIndex_dom (a : Call) (c : Component) :
  dom (centralIndex (state c)) = {[ "circular"%string; "linear"%string ]} ->
  dom (centralIndex (state (exec (perform a) c))) = {[ "circular"%string; "linear"%string ]}.
Proof.
  intros Hd. destruct a as [type value | sel]; cbn [perform].
  - destruct (setCentralIndex_exec type value c) as [-> | [Hr ->]]; [exact Hd|].
    cbn. rewrite dom_insert_L, Hd.
    destruct (recognized_key type Hr) as [-> | ->]; set_solver.
  - rewrite setSelection_exec. destruct (p_selection (props c)); exact Hd.
Qed.

Lemma performAll_centralIndex_dom (d : JsObj) (p : Props) (calls : list Call) :
  dom (centralIndex (state (performAll calls (construct d p))))
  = {[ "circular"%string; "linear"%string ]}.
Proof.
  induction calls as [|a calls IH] using rev_ind.
  - cbn. rewrite dom_insert_L, dom_singleton_L. reflexivity.
  - rewrite performAll_snoc. apply perform_centralIndex_dom, IH.
Qed.

(** X1: whatever calls are made on a constructed component, valid or not,
    its props are untouched and no entry of [state.centralIndex] is added
    or removed: the keys stay the ones the constructor stored (the method
    reference it stores beside the two indices is kept by every spread and
    is not part of the map), and the [circular] and the [linear] index are
    never missing. *)
Theorem centralIndex_keys_persist (d : JsObj) (p : Props) (calls : list Call) :
  let c := performAll calls (construct d p) in
  props c = p
  /\ dom (centralIndex (state c)) = dom (centralIndex (state (construct d p)))
  /\ is_Some (centralIndex (state c) !! "circular"%string)
  /\ is_Some (centralIndex (state c) !! "linear"%string).
Proof.
  intros c. subst c.
  pose proof (performAll_centralIndex_dom d p calls) as Hd.
  pose proof (performAll_centralIndex_dom d p []) as H0. cbn [performAll foldl] in H0.
  split; [apply performAll_props|].
  split; [rewrite Hd, H0; reflexivity|].
  split; apply elem_of_dom; rewrite Hd; set_solver.
Qed.


Lemma perform_notifications (a : Call) (c : Component) :
  notifications (exec (perform a) c)
  = notifications c ++ (stripped <$> selectionArgs [a]).
Proof.
  destruct a as [type value | sel]; cbn [perform selectionArgs omap fmap list_fmap].
  - rewrite app_nil_r.
    destruct (setCentralIndex_exec type value c) as [-> | [_ ->]]; [reflexivity|].
    apply notifications_setState.
  - rewrite setSelection_exec, notifications_snoc.
    destruct (p_selection (props c)); [reflexivity|].
    rewrite notifications_setState. reflexivity.
Qed.

Lemma perform_mutations (a : Call) (c : Component) :
  (mutations c <= mutations (exec (perform a) c) <= S (mutations c))%nat.
Proof.
  destruct a as [type value | sel]; cbn [perform].
  - destruct (setCentralIndex_exec type value c) as [-> | [_ ->]]; [lia|].
    rewrite mutations_snoc. lia.
  - rewrite setSelection_exec, mutations_call.
    destruct (p_selection (props c)); [lia|]. rewrite mutations_snoc. lia.
Qed.

Lemma selectionArgs_app (xs ys : list Call) :
  selectionArgs (xs ++ ys) = selectionArgs xs ++ selectionArgs ys.
Proof. unfold selectionArgs. apply omap_app. Qed.

(** X2: over any sequence of calls the application is notified once per
    [setSelection] call, in call order, each time with the stripped
    argument, and never by [setCentralIndex]; the number of [setState]
    calls is at most the number of calls made. *)
Theorem notifications_follow_calls (calls : list Call) (c : Component) :
  notifications (performAll calls c)
  = notifications c ++ (stripped <$> selectionArgs calls)
  /\ (mutations (performAll calls c) <= mutations c + length calls)%nat.
Proof.
  induction calls as [|a calls [IHn IHm]] using rev_ind.
  - cbn. rewrite app_nil_r. split; [reflexivity|lia].
  - rewrite performAll_snoc, perform_notifications, IHn, selectionArgs_app,
      fmap_app, app_assoc, length_app.
    split; [reflexivity|].
    pose proof (perform_mutations a (performAll calls c)). cbn. lia.
Qed.

Lemma perform_selection_controlled (a : Call) (c : Component) :
  is_Some (p_selection (props c)) ->
  selection (state (exec (perform a) c)) = selection (state c).
Proof.
  intros [q Hq]. destruct a as [type value | sel]; cbn [perform].
  - destruct (setCentralIndex_exec type value c) as [-> | [_ ->]]; reflexivity.
  - rewrite setSelection_exec, Hq. reflexivity.
Qed.

Lemma perform_selection_uncontrolled (a : Call) (c : Component) :
  p_selection (props c) = None ->
  selection (state (exec (perform a) c))
  = match a with
    | CallSetSelection sel => sel
    | CallSetCentralIndex _ _ => selection (state c)
    end.
Proof.
  intros Hn. destruct a as [type value | sel]; cbn [perform].
  - destruct (setCentralIndex_exec type value c) as [-> | [_ ->]]; reflexivity.
  - rewrite setSelection_exec, Hn. reflexivity.
Qed.

Lemma performAll_selection_controlled (calls : list Call) (c : Component) :
  is_Some (p_selection (props c)) ->
  selection (state (performAll calls c)) = selection (state c).
Proof.
  intros Hs.
  induction calls as [|a calls IH] using rev_ind; [reflexivity|].
  rewrite performAll_snoc, perform_selection_controlled; [exact IH|].
  rewrite performAll_props. exact Hs.
Qed.

(** X3 (controlled mode): with a caller-supplied selection, no sequence of
    calls changes the internal selection, and the published selection stays
    the normalised prop. *)
Theorem controlled_selection_is_fixed (calls : list Call) (c : Component) (sel : JsObj) :
  p_selection (props c) = Some sel ->
  selection (state (performAll calls c)) = selection (state c)
  /\ publishedSelection (performAll calls c) = getSelection ∅ (Some sel).
Proof.
  intros Hs. split.
  - apply performAll_selection_controlled. rewrite Hs. eauto.
  - unfold publishedSelection. rewrite performAll_props, Hs. reflexivity.
Qed.

Lemma controlled_selection_sample :
  let c := construct ∅ (sampleProps linear "dna" 8 800 600 50 None
                          (Some {[ "start"%string := VNum 1; "end"%string := VNum 5 ]})) in
  let calls := [CallSetSelection {[ "start"%string := VNum 2; "end"%string := VNum 3 ]};
                CallSetCentralIndex "LINEAR" 4] in
  selection (state (performAll calls c)) = selection (state c)
  /\ publishedSelection (performAll calls c)
     = getSelection ∅ (Some {[ "start"%string := VNum 1; "end"%string := VNum 5 ]}).
Proof.
  intros c calls.
  exact (controlled_selection_is_fixed calls c
           {[ "start"%string := VNum 1; "end"%string := VNum 5 ]} eq_refl).
Defined.

(** X4 (uncontrolled mode): without a caller-supplied selection, the
    published selection after any sequence of calls is the full argument of
    the last [setSelection] call, [parent] and [ref] included, or the
    earlier selection when no such call was made. *)
Theorem uncontrolled_selection_is_last (calls : list Call) (c : Component) :
  p_selection (props c) = None ->
  publishedSelection (performAll calls c)
  = default (selection (state c)) (lastSelection calls).
Proof.
  intros Hn. unfold publishedSelection. rewrite performAll_props, Hn. cbn [getSelection].
  induction calls as [|a calls IH] using rev_ind; [reflexivity|].
  rewrite performAll_snoc, perform_selection_uncontrolled
    by (rewrite performAll_props; exact Hn).
  unfold lastSelection. rewrite selectionArgs_app.
  destruct a as [type value | sel].
  - change (selectionArgs [CallSetCentralIndex type value]) with (@nil JsObj).
    rewrite app_nil_r. exact IH.
  - change (selectionArgs [CallSetSelection sel]) with [sel].
    rewrite last_snoc. reflexivity.
Qed.

Lemma uncontrolled_selection_sample :
  let c := construct ∅ (sampleProps linear "dna" 8 800 600 50 None None) in
  let sel := {[ "start"%string := VNum 2; "end"%string := VNum 3; "ref"%string := VNull ]} in
  publishedSelection (performAll [CallSetSelection sel; CallSetCentralIndex "LINEAR" 4] c)
  = sel.
Proof.
  intros c sel.
  exact (uncontrolled_selection_is_last
           [CallSetSelection sel; CallSetCentralIndex "LINEAR" 4] c eq_refl).
Defined.

Lemma performAll_published (d : JsObj) (p : Props) (calls : list Call) :
  publishedSelection (performAll calls (construct d p))
  = selection (state (performAll calls (construct d p))).
Proof.
  destruct (p_selection p) as [sel|] eqn:Hp.
  - unfold publishedSelection.
    rewrite performAll_selection_controlled by (cbn; rewrite Hp; eauto).
    rewrite performAll_props. cbn. rewrite Hp. reflexivity.
  - unfold publishedSelection. rewrite performAll_props. cbn. rewrite Hp. reflexivity.
Qed.

(** ** Selection resolution *)

(** X5: resolving a selection is idempotent: a resolved caller-supplied
    selection, supplied again, resolves to itself, whatever the internal
    selections are. *)
Theorem getSelection_idem (st st' p : JsObj) :
  getSelection st' (Some (getSelection st (Some p))) = getSelection st (Some p).
Proof.
  cbn [getSelection].
  set (b := typeof_undefined (getProp p "clockwise") || truthy (getProp p "clockwise")).
  assert (Hb : getProp (<["type"%string := VStr EmptyString]>
                          (<["clockwise"%string := VBool b]> p)) "clockwise" = VBool b).
  { unfold getProp. rewrite lookup_insert_ne by discriminate.
    rewrite lookup_insert_eq. reflexivity. }
  rewrite Hb. cbn [typeof_undefined truthy orb].
  apply map_eq. intros k.
  destruct (decide (k = "type"%string)) as [->|Ht]; [rewrite !lookup_insert_eq; reflexivity|].
  rewrite (lookup_insert_ne _ "type"%string k) by congruence.
  destruct (decide (k = "clockwise"%string)) as [->|Hc].
  - rewrite lookup_insert_eq, lookup_insert_ne by discriminate.
    rewrite lookup_insert_eq. reflexivity.
  - rewrite lookup_insert_ne by congruence. reflexivity.
Qed.


(** ** Central index: tokens, axes, overwriting *)

Lemma setCentralIndex_state (type : string) (value : Z) (c : Component) :
  recognized type ->
  state (exec (setCentralIndex type value) c)
  = {| centralIndex := <[toLowerCase type := value]> (centralIndex (state c));
       selection := selection (state c) |}
  /\ props (exec (setCentralIndex type value) c) = props c
  /\ mutations (exec (setCentralIndex type value) c)
     = (mutations c
        + if decide (centralIndex (state c) !! toLowerCase type = Some value) then 0 else 1)%nat.
Proof.
  intros Hr. unfold exec.
  destruct (decide (centralIndex (state c) !! toLowerCase type = Some value)) as [He | Hne].
  - rewrite setCentralIndex_same by assumption. cbn.
    rewrite insert_id by exact He. split; [destruct (state c); reflexivity|].
    split; [reflexivity|lia].
  - rewrite setCentralIndex_changed by assumption.
    split; [reflexivity|]. split; [reflexivity|].
    change (mutations (exec (setState {| centralIndex := <[toLowerCase type:=value]> (centralIndex (state c));
                                         selection := selection (state c) |}) c)
            = (mutations c + 1)%nat).
    rewrite mutations_snoc. lia.
Qed.

(** X6: [setCentralIndex] returns normally exactly for the two tokens
    ["LINEAR"] and ["CIRCULAR"] and throws for every other token; the match
    is exact, so a token that differs from a recognized one only in case is
    rejected although it names the same state key. *)
Theorem setCentralIndex_accepts_exact_tokens (type : string) (value : Z) (c : Component) :
  (fst (setCentralIndex type value c) = inr tt <-> recognized type)
  /\ (fst (setCentralIndex type value c) = inl (InvalidAxisError type) <-> ~ recognized type)
  /\ (toLowerCase type = "linear"%string -> type <> "LINEAR"%string ->
      setCentralIndex type value c = (inl (InvalidAxisError type), c)).
Proof.
  destruct (recognized_dec type) as [Hr | Hn].
  - assert (Hok : fst (setCentralIndex type value c) = inr tt).
    { destruct (decide (centralIndex (state c) !! toLowerCase type = Some value)).
      - rewrite setCentralIndex_same by assumption. reflexivity.
      - rewrite setCentralIndex_changed by assumption. reflexivity. }
    split; [tauto|]. split.
    + rewrite Hok. split; [discriminate|tauto].
    + intros Hl Hne. destruct Hr as [-> | ->]; [congruence|discriminate Hl].
  - rewrite setCentralIndex_unrecognized by assumption. cbn.
    split; [split; [discriminate|tauto]|]. split; [tauto|]. reflexivity.
Qed.

Lemma flush_idle (d : Deferred) :
  flush d = idle (current (flush d)).
Proof. reflexivity. Qed.

(** The central index once one call's update is applied on a component
    with nothing pending. *)
Lemma flushedIndex_after_call (type : string) (value : Z) (c : Component) :
  recognized type ->
  flushedIndex (snd (setCentralIndex_deferred type value (idle c)))
  = <[toLowerCase type := value]> (centralIndex (state c)).
Proof.
  intros Hr. unfold flushedIndex.
  destruct (flush_after_call type value c) as (_ & -> & _).
  destruct (setCentralIndex_state type value c Hr) as (-> & _). reflexivity.
Qed.

(** In a batch the update requested last decides the central index. *)
Lemma flushedIndex_requested (type : string) (value : Z) (d : Deferred) :
  recognized type ->
  centralIndex (state (current d)) !! toLowerCase type <> Some value ->
  flushedIndex (snd (setCentralIndex_deferred type value d))
  = <[toLowerCase type := value]> (centralIndex (state (current d))).
Proof.
  intros Hr Hne. rewrite setCentralIndex_deferred_changed by assumption.
  unfold flushedIndex, flush. cbn [snd current queue idle state].
  rewrite foldl_app. reflexivity.
Qed.

Lemma flushedIndex_skipped (type : string) (value : Z) (d : Deferred) :
  recognized type ->
  centralIndex (state (current d)) !! toLowerCase type = Some value ->
  flushedIndex (snd (setCentralIndex_deferred type value d)) = flushedIndex d.
Proof.
  intros Hr He. rewrite setCentralIndex_deferred_same by assumption. reflexivity.
Qed.

Lemma setCentralIndex_deferred_current (type : string) (value : Z) (d : Deferred) :
  current (snd (setCentralIndex_deferred type value d)) = current d.
Proof.
  unfold setCentralIndex_deferred.
  destruct (negb _ && negb _); [reflexivity|]. cbv zeta.
  destruct (bool_decide _); reflexivity.
Qed.

(** X7: whether a ["LINEAR"] and a ["CIRCULAR"] update commute depends on
    the host.  When each update is applied before the next call, both
    orders leave both new indices.  When the two calls fall into one batch,
    the later call builds its update from the [this.state] read before the
    earlier update was applied, and merged last it puts the earlier axis
    back: only the later axis is updated, and the two orders leave
    different indices. *)
Theorem setCentralIndex_two_axes (v w : Z) (c : Component) :
  let toLinear := setCentralIndex_deferred "LINEAR" v in
  let toCircular := setCentralIndex_deferred "CIRCULAR" w in
  let ci := centralIndex (state c) in
  flushedIndex (snd (toCircular (flush (snd (toLinear (idle c))))))
  = <["circular"%string := w]> (<["linear"%string := v]> ci)
  /\ flushedIndex (snd (toLinear (flush (snd (toCircular (idle c))))))
     = <["circular"%string := w]> (<["linear"%string := v]> ci)
  /\ (ci !! "circular"%string <> Some w ->
      flushedIndex (snd (toCircular (snd (toLinear (idle c)))))
      = <["circular"%string := w]> ci)
  /\ (ci !! "linear"%string <> Some v ->
      flushedIndex (snd (toLinear (snd (toCircular (idle c)))))
      = <["linear"%string := v]> ci)
  /\ (ci !! "linear"%string <> Some v -> ci !! "circular"%string <> Some w ->
      flushedIndex (snd (toCircular (snd (toLinear (idle c))))) !! "linear"%string
      = ci !! "linear"%string
      /\ flushedIndex (snd (toCircular (snd (toLinear (idle c)))))
         <> flushedIndex (snd (toLinear (snd (toCircular (idle c)))))).
Proof.
  intros toLinear toCircular ci. subst toLinear toCircular.
  assert (HL : recognized "LINEAR") by (left; reflexivity).
  assert (HC : recognized "CIRCULAR") by (right; reflexivity).
  assert (Hbatch1 : ci !! "circular"%string <> Some w ->
            flushedIndex (snd (setCentralIndex_deferred "CIRCULAR" w
                                 (snd (setCentralIndex_deferred "LINEAR" v (idle c)))))
            = <["circular"%string := w]> ci).
  { intros Hw. rewrite flushedIndex_requested;
      rewrite ?setCentralIndex_deferred_current; [reflexivity|exact HC|exact Hw]. }
  assert (Hbatch2 : ci !! "linear"%string <> Some v ->
            flushedIndex (snd (setCentralIndex_deferred "LINEAR" v
                                 (snd (setCentralIndex_deferred "CIRCULAR" w (idle c)))))
            = <["linear"%string := v]> ci).
  { intros Hv. rewrite flushedIndex_requested;
      rewrite ?setCentralIndex_deferred_current; [reflexivity|exact HL|exact Hv]. }
  split; [|split; [|split; [exact Hbatch1|split; [exact Hbatch2|]]]].
  - rewrite flush_idle, flushedIndex_after_call by exact HC.
    change (centralIndex (state (current (flush ?d)))) with (flushedIndex d).
    rewrite flushedIndex_after_call by exact HL. reflexivity.
  - rewrite flush_idle, flushedIndex_after_call by exact HL.
    change (centralIndex (state (current (flush ?d)))) with (flushedIndex d).
    rewrite flushedIndex_after_call by exact HC.
    apply insert_insert_ne. discriminate.
  - intros Hv Hw. rewrite (Hbatch1 Hw), (Hbatch2 Hv).
    split; [apply lookup_insert_ne; discriminate|].
    intros Heq. apply (f_equal (fun m => m !! "linear"%string)) in Heq.
    rewrite lookup_insert_ne in Heq by discriminate.
    rewrite lookup_insert_eq in Heq. contradiction.
Qed.

(** X8: on one axis, [setCentralIndex(t, v)] followed by
    [setCentralIndex(t, w)] leaves [w] when the first update is applied
    before the second call.  In one batch the second call compares [w]
    with the index read from the stale [this.state]: it requests its
    update, and [w] is left, unless [w] is that stale index, in which case
    it returns at once and the [v] of the first call is left. *)
Theorem setCentralIndex_same_axis_twice (type : string) (v w : Z) (c : Component) :
  recognized type ->
  let k := toLowerCase type in
  let ci := centralIndex (state c) in
  let first := snd (setCentralIndex_deferred type v (idle c)) in
  flushedIndex (snd (setCentralIndex_deferred type w (flush first))) = <[k := w]> ci
  /\ (ci !! k <> Some w ->
      flushedIndex (snd (setCentralIndex_deferred type w first)) = <[k := w]> ci)
  /\ (ci !! k = Some w ->
      flushedIndex (snd (setCentralIndex_deferred type w first)) = <[k := v]> ci).
Proof.
  intros Hr k ci first. subst first.
  split; [|split].
  - rewrite flush_idle, flushedIndex_after_call by exact Hr.
    change (centralIndex (state (current (flush ?d)))) with (flushedIndex d).
    rewrite flushedIndex_after_call by exact Hr. apply insert_insert_eq.
  - intros Hw. rewrite flushedIndex_requested;
      rewrite ?setCentralIndex_deferred_current; [reflexivity|exact Hr|exact Hw].
  - intros Hw. rewrite flushedIndex_skipped;
      rewrite ?setCentralIndex_deferred_current; [|exact Hr|exact Hw].
    apply flushedIndex_after_call, Hr.
Qed.

Lemma setCentralIndex_same_axis_sample :
  let c := construct ∅ (sampleProps linear "dna" 8 800 600 50 None None) in
  let first := snd (setCentralIndex_deferred "LINEAR" 7 (idle c)) in
  flushedIndex (snd (setCentralIndex_deferred "LINEAR" 0 (flush first)))
  = <["linear"%string := 0]> (centralIndex (state c))
  /\ (centralIndex (state c) !! "linear"%string <> Some 0 ->
      flushedIndex (snd (setCentralIndex_deferred "LINEAR" 0 first))
      = <["linear"%string := 0]> (centralIndex (state c)))
  /\ (centralIndex (state c) !! "linear"%string = Some 0 ->
      flushedIndex (snd (setCentralIndex_deferred "LINEAR" 0 first))
      = <["linear"%string := 7]> (centralIndex (state c))).
Proof.
  intros c first.
  exact (setCentralIndex_same_axis_twice "LINEAR" 7 0 c (or_introl eq_refl)).
Defined.


Local Open Scope float_scope.

(** ** Rendering *)

Lemma storeSize_sameButTestSize (s : Size) (c : Component) :
  sameButTestSize c (storeSize s c).
Proof.
  unfold storeSize, sameButTestSize.
  destruct (p_testSize (props c)) eqn:E; cbn; rewrite ?E; repeat split; eauto.
Qed.

Lemma sameButTestSize_trans (a b c : Component) :
  sameButTestSize a b -> sameButTestSize b c -> sameButTestSize a c.
Proof.
  unfold sameButTestSize. intros H1 H2.
  destruct H1 as (?&?&?&?&?&?&?&?&?&?&?), H2 as (?&?&?&?&?&?&?&?&?&?&?).
  repeat split; try congruence; tauto.
Qed.

Lemma storeSize_testSize (s t : Size) (c : Component) :
  p_testSize (props c) = Some t -> p_testSize (props (storeSize s c)) = Some s.
Proof. intros H. unfold storeSize. rewrite H. reflexivity. Qed.

Section RenderFacts.
Variable E L : float -> float.
Variable P : float -> float -> float.

(** One run of [render], spelled out. *)
Lemma render_run (c : Component) :
  let lp := renderLinear c in
  let c1 := storeSize (l_size lp) c in
  let cp := renderCircular E L P c in
  let c2 := storeSize (c_size cp) c1 in
  render E L P c
  = (inr (tree (props c) (state c)
            (linearWithSize lp (match p_testSize (props c2) with
                                | Some s => s | None => l_size lp end))
            (circularWithSize cp (match p_testSize (props c2) with
                                  | Some s => s | None => c_size cp end))),
     c2).
Proof. reflexivity. Qed.

Lemma render_exec (c : Component) :
  exec (render E L P) c
  = storeSize (c_size (renderCircular E L P c)) (storeSize (l_size (renderLinear c)) c).
Proof. unfold exec. rewrite render_run. reflexivity. Qed.

Lemma tree_views (p : Props) (s : State) (lp : LinearLayout) (cp : CircularLayout) :
  views (tree p s lp cp)
  = match p_viewer p with
    | linear => [Linear lp]
    | circular => [Circular cp]
    | both => [Circular cp; Linear lp]
    | both_flip => [Linear lp; Circular cp]
    end.
Proof. unfold tree. cbn [views]. destruct (p_viewer p); reflexivity. Qed.

Lemma tree_linearViews (p : Props) (s : State) (lp : LinearLayout) (cp : CircularLayout) :
  linearViews (tree p s lp cp)
  = match p_viewer p with circular => [] | _ => [lp] end.
Proof. unfold linearViews. rewrite tree_views. destruct (p_viewer p); reflexivity. Qed.

Lemma tree_circularViews (p : Props) (s : State) (lp : LinearLayout) (cp : CircularLayout) :
  circularViews (tree p s lp cp)
  = match p_viewer p with linear => [] | _ => [cp] end.
Proof. unfold circularViews. rewrite tree_views. destruct (p_viewer p); reflexivity. Qed.

(** X9: [render] always returns; it makes no [setState] call and no
    [onSelection] call, leaves the state alone, and changes nothing in the
    props except the contents of a given [testSize].  Without [testSize]
    the component is exactly as before. *)
Theorem render_changes_testSize_only (c : Component) :
  exists r : Rendered,
    fst (render E L P c) = inr r
    /\ sameButTestSize c (exec (render E L P) c)
    /\ mutations (exec (render E L P) c) = mutations c
    /\ notifications (exec (render E L P) c) = notifications c
    /\ (p_testSize (props c) = None -> exec (render E L P) c = c).
Proof.
  eexists. split; [rewrite render_run; reflexivity|].
  assert (Hs : sameButTestSize c (exec (render E L P) c)).
  { rewrite render_exec.
    eapply sameButTestSize_trans; apply storeSize_sameButTestSize. }
  split; [exact Hs|].
  destruct Hs as (_ & He & _).
  unfold mutations, notifications. rewrite He.
  split; [reflexivity|]. split; [reflexivity|].
  intros Hn. rewrite render_exec.
  rewrite (storeSize_fresh _ c Hn). apply storeSize_fresh, Hn.
Qed.

(** X10: [render] shows two layout elements exactly in the modes in which
    the calculators halve the width, and one otherwise; there is a linear
    element unless the mode is [circular] and a circular one unless it is
    [linear].  Every linear element carries the [bpsPerBlock] given to the
    handlers and every circular element their [center]; [yDiff] is 0. *)
Theorem render_views (c : Component) :
  exists r : Rendered,
    fst (render E L P c) = inr r
    /\ length (views r)
       = (if includes (viewer_string (p_viewer (props c))) "both" then 2 else 1)%nat
    /\ length (linearViews r)
       = (if String.eqb (viewer_string (p_viewer (props c))) "circular" then 0 else 1)%nat
    /\ length (circularViews r)
       = (if String.eqb (viewer_string (p_viewer (props c))) "linear" then 0 else 1)%nat
    /\ Forall (fun l => bpsPerBlock l = h_bpsPerBlock r) (linearViews r)
    /\ Forall (fun k => center k = h_center r /\ yDiff k = h_yDiff r) (circularViews r)
    /\ h_yDiff r = 0
    /\ (p_viewer (props c) = both ->
        exists k l, views r = [Circular k; Linear l])
    /\ (p_viewer (props c) = both_flip ->
        exists l k, views r = [Linear l; Circular k]).
Proof.
  eexists. split; [rewrite render_run; reflexivity|].
  rewrite tree_views, tree_linearViews, tree_circularViews.
  destruct (p_viewer (props c)); cbn [length viewer_string];
    repeat split; repeat constructor; try discriminate; intros _; eauto.
Qed.

(** X11: on a component reached from its constructor by any sequence of
    calls, with the props it was constructed with, [render] publishes the
    state's central index, hands the handlers a circular index that is
    never undefined, and publishes as selection exactly the selection it
    hands to the event handler, in controlled and in uncontrolled mode. *)
Theorem render_publishes_state (d : JsObj) (p : Props) (calls : list Call) :
  let c := performAll calls (construct d p) in
  exists r : Rendered,
    fst (render E L P c) = inr r
    /\ centralIndexContext r = centralIndex (state c)
    /\ h_centralIndex r = centralIndex (state c) !! "circular"%string
    /\ is_Some (h_centralIndex r)
    /\ selectionContext r = publishedSelection c
    /\ selectionContext r = h_selection r.
Proof.
  intros c. eexists. split; [rewrite render_run; reflexivity|].
  cbn [tree centralIndexContext h_centralIndex selectionContext h_selection].
  split; [reflexivity|]. split; [reflexivity|].
  split.
  { apply elem_of_dom. subst c. rewrite performAll_centralIndex_dom. set_solver. }
  split; [reflexivity|].
  exact (performAll_published d p calls).
Qed.

(** X12: with a forced [testSize] both calculators and both elements share
    one object.  After [render] that object holds what the circular
    calculator left, which is the halving (in the modes showing both) of
    what the linear calculator left; every element sees this final size,
    while a linear element's [charWidth] was computed from the width the
    linear calculator left, which in the modes showing both its own [size]
    no longer shows.  The height is never changed. *)
Theorem render_shares_testSize (c : Component) (s : Size) :
  p_testSize (props c) = Some s ->
  exists r : Rendered,
    fst (render E L P c) = inr r
    /\ (let final := halved (p_viewer (props c)) (l_size (renderLinear c)) in
        p_testSize (props (exec (render E L P) c)) = Some final
        /\ Forall (fun l => l_size l = final) (linearViews r)
        /\ Forall (fun k => c_size k = final) (circularViews r)
        /\ Forall (fun l => charWidth l = width (l_size (renderLinear c)) / bpsPerBlock l)
                  (linearViews r)
        /\ height final = height s
        /\ h_center r = {| pt_x := width final / 2; pt_y := height final / 2 |}).
Proof.
  intros Hs.
  destruct (linearProps_aliases_testSize c s Hs) as (lp & Hlp & Hts & Hh & _).
  injection Hlp as <-.
  assert (Hp1 : props (exec linearProps c) = props (storeSize (l_size (renderLinear c)) c))
    by reflexivity.
  assert (Hv1 : p_viewer (props (exec linearProps c)) = p_viewer (props c)).
  { rewrite Hp1. apply (storeSize_sameButTestSize _ c). }
  assert (Hcs : c_size (renderCircular E L P c)
                = halved (p_viewer (props c)) (l_size (renderLinear c))).
  { unfold renderCircular. cbv zeta. rewrite circularLayout_size, Hv1.
    unfold initialSize. rewrite Hts. reflexivity. }
  assert (Hfin : p_testSize (props (exec (render E L P) c))
                 = Some (halved (p_viewer (props c)) (l_size (renderLinear c)))).
  { rewrite render_exec, <- Hcs. eapply storeSize_testSize. exact Hts. }
  eexists. split; [rewrite render_run; reflexivity|]. cbv zeta.
  pose proof Hfin as Hfin'. rewrite render_exec in Hfin'. rewrite Hfin'.
  rewrite tree_linearViews, tree_circularViews.
  split; [exact Hfin|].
  split; [destruct (p_viewer (props c)); repeat constructor|].
  split; [destruct (p_viewer (props c)); repeat constructor|].
  split; [destruct (p_viewer (props c)); repeat constructor|].
  split.
  { rewrite <- Hh. unfold halved. destruct (includes _ _); reflexivity. }
  cbn [tree h_center circularWithSize center]. rewrite <- Hcs. reflexivity.
Qed.

End RenderFacts.

Lemma render_shares_testSize_sample :
  exists r : Rendered,
    fst (render (fun x => x) (fun x => x) (fun x _ => x) forcedBoth) = inr r
    /\ (let final := halved both (l_size (renderLinear forcedBoth)) in
        p_testSize (props (exec (render (fun x => x) (fun x => x) (fun x _ => x)) forcedBoth))
        = Some final
        /\ Forall (fun l => l_size l = final) (linearViews r)
        /\ Forall (fun k => c_size k = final) (circularViews r)
        /\ Forall (fun l => charWidth l = width (l_size (renderLinear forcedBoth)) / bpsPerBlock l)
                  (linearViews r)
        /\ height final = 600
        /\ h_center r = {| pt_x := width final / 2; pt_y := height final / 2 |}).
Proof.
  exact (render_shares_testSize (fun x => x) (fun x => x) (fun x _ => x) forcedBoth
           {| height := 600; width := 800 |} eq_refl).
Defined.

Local Close Scope float_scope.


Local Open Scope float_scope.

(** ** Linear layout: the character width *)

Lemma is_finite_spec x :
  is_finite x = true ->
  match Prim2SF x with S754_zero _ | S754_finite _ _ _ => True | _ => False end.
Proof.
  unfold is_finite, is_infinity.
  rewrite is_nan_spec, FloatAxioms.eqb_spec, abs_spec.
  change (Prim2SF infinity) with (S754_infinity false).
  destruct (Prim2SF x) as [s|s| |s m e]; simpl; try discriminate; auto.
Qed.

Lemma ge_one_shape b :
  (1 <=? b) = true ->
  match Prim2SF b with
  | S754_infinity false | S754_finite false _ _ => True
  | _ => False
  end.
Proof.
  rewrite FloatAxioms.leb_spec.
  change (Prim2SF 1) with (S754_finite false 4503599627370496 (-52)).
  destruct (Prim2SF b) as [s|[]| |[] m e]; simpl; try discriminate; auto.
Qed.

Lemma zero_or_pos_leb x : zero_or_pos (Prim2SF x) -> (0 <=? x) = true.
Proof.
  rewrite FloatAxioms.leb_spec. change (Prim2SF 0) with (S754_zero false).
  destruct (Prim2SF x) as [s|[]| |[] m e]; simpl; try contradiction; reflexivity.
Qed.

(** X13: for a linear zoom of at most 100 the division that yields
    [charWidth] never has a zero or a NaN divisor: whenever the returned
    width is a finite number, [charWidth] is a number, and it is not
    negative when the returned width is not. *)
Theorem linearProps_charWidth (c : Component) :
  (zoom_linear (p_zoom (props c)) <=? 100) = true ->
  exists r : LinearLayout,
    fst (linearProps c) = inr r
    /\ (is_finite (width (l_size r)) = true -> is_nan (charWidth r) = false)
    /\ (is_finite (width (l_size r)) = true -> (0 <=? width (l_size r)) = true ->
        (0 <=? charWidth r) = true).
Proof.
  intros Hz. eexists. split; [reflexivity|].
  set (r := linearLayout _ _ _ _ _).
  assert (Hb : (1 <=? bpsPerBlock r) = true)
    by (apply linearLayout_bpsPerBlock_ge_1, Hz).
  apply ge_one_shape in Hb.
  assert (Hc : charWidth r = width (l_size r) / bpsPerBlock r) by reflexivity.
  rewrite Hc. clearbody r.
  split.
  - intros Hf. apply is_finite_spec in Hf.
    rewrite is_nan_spec, div_spec.
    destruct (Prim2SF (bpsPerBlock r)) as [sb|[]| |[] mb eb]; try contradiction;
      destruct (Prim2SF (width (l_size r))) as [sw|sw| |sw mw ew]; try contradiction;
      try reflexivity.
    unfold SF64div, SFdiv.
    pose proof (SFdiv_core_binary_nonneg mw ew mb eb) as H.
    destruct (SFdiv_core_binary prec emax (Zpos mw) ew (Zpos mb) eb) as [[mz ez] lz].
    apply binary_round_aux_not_nan, H.
  - intros Hf Hw. apply is_finite_spec in Hf. apply leb_zero_spec in Hw.
    apply zero_or_pos_leb. rewrite div_spec.
    destruct (Prim2SF (bpsPerBlock r)) as [sb|[]| |[] mb eb]; try contradiction;
      destruct (Prim2SF (width (l_size r))) as [sw|sw| |[] mw ew]; try contradiction;
      try exact I.
    apply SFdiv_zero_or_pos; exact I.
Qed.

Lemma linearProps_charWidth_sample :
  exists r : LinearLayout,
    fst (linearProps (mount (sampleProps linear "dna" 10000 800 600 50 None None))) = inr r
    /\ (is_finite (width (l_size r)) = true -> is_nan (charWidth r) = false)
    /\ (is_finite (width (l_size r)) = true -> (0 <=? width (l_size r)) = true ->
        (0 <=? charWidth r) = true).
Proof.
  exact (linearProps_charWidth
           (mount (sampleProps linear "dna" 10000 800 600 50 None None)) eq_refl).
Defined.

Local Close Scope float_scope.


Local Close Scope float_scope.

(** ** Linear layout: the font size *)

(** *** Shifting and rounding a long mantissa *)

Lemma shr_1_div mrs : 0 <= shr_m mrs -> shr_m (shr_1 mrs) = shr_m mrs / 2.
Proof.
  destruct mrs as [m r s]. simpl. intros H.
  destruct m as [|p|p]; [reflexivity| |lia].
  destruct p as [p|p|]; simpl.
  - apply Z.div_unique with 1; lia.
  - apply Z.div_unique with 0; lia.
  - reflexivity.
Qed.

Lemma iter_shr_1_nonneg p mrs :
  0 <= shr_m mrs -> 0 <= shr_m (SpecFloat.iter_pos shr_1 p mrs).
Proof.
  apply (iter_pos_invariant (fun r => 0 <= shr_m r)). apply shr_1_nonneg.
Qed.

Lemma iter_shr_1_div p :
  forall mrs, 0 <= shr_m mrs ->
    shr_m (SpecFloat.iter_pos shr_1 p mrs) = shr_m mrs / 2 ^ Zpos p.
Proof.
  induction p as [p IH|p IH|]; intros mrs H; simpl SpecFloat.iter_pos.
  - rewrite IH by (apply iter_shr_1_nonneg, shr_1_nonneg, H).
    rewrite IH by (apply shr_1_nonneg, H).
    rewrite shr_1_div by exact H.
    assert (E : 2 ^ Zpos p~1 = 2 * (2 ^ Zpos p * 2 ^ Zpos p)).
    { rewrite <- Z.pow_add_r, <- Z.pow_succ_r by lia. f_equal. lia. }
    rewrite E, !Z.div_div by (try apply Z.pow_pos_nonneg; lia). reflexivity.
  - rewrite IH by (apply iter_shr_1_nonneg, H).
    rewrite IH by exact H.
    assert (E : 2 ^ Zpos p~0 = 2 ^ Zpos p * 2 ^ Zpos p).
    { rewrite <- Z.pow_add_r by lia. f_equal. lia. }
    rewrite E, !Z.div_div by (try apply Z.pow_pos_nonneg; lia). reflexivity.
  - rewrite shr_1_div by exact H. reflexivity.
Qed.

Lemma shr_div m l e n :
  0 <= m -> 0 <= n ->
  snd (shr (shr_record_of_loc m l) e n) = e + n
  /\ shr_m (fst (shr (shr_record_of_loc m l) e n)) = m / 2 ^ n.
Proof.
  intros Hm Hn. unfold shr. destruct n as [|p|p]; [| |lia]; cbn [fst snd].
  - rewrite shr_record_of_loc_m, Z.div_1_r. split; [lia|reflexivity].
  - split; [reflexivity|].
    rewrite iter_shr_1_div by (rewrite shr_record_of_loc_m; exact Hm).
    rewrite shr_record_of_loc_m. reflexivity.
Qed.

(** The second half of [binary_round_aux] on a 53-bit mantissa. *)
Lemma round_tail q0 loc e' k e0 :
  2 ^ 52 <= q0 < 2 ^ 53 -> -1074 <= e' ->
  e0 < e' \/ (e' = e0 /\ k <= q0) ->
  at_least k e0
    (let '(mrs'', e'') :=
       shr_fexp prec emax (round_nearest_even q0 loc) e' loc_Exact in
     match shr_m mrs'' with
     | 0 => S754_zero false
     | Zpos m => if e'' <=? emax - prec then S754_finite false m e'' else S754_infinity false
     | Zneg _ => S754_nan
     end).
Proof.
  intros Hq He Hk. unfold shr_fexp.
  set (q1 := round_nearest_even q0 loc).
  assert (Hq1 : (2 ^ 52 <= q1 < 2 ^ 53 /\ q0 <= q1) \/ q1 = 2 ^ 53).
  { subst q1. destruct (round_nearest_even_cases q0 loc) as [-> | ->]; lia. }
  destruct Hq1 as [[Hq1 Hle] | ->].
  - rewrite (fexp_normal _ e' (Zdigits2_normal q1 Hq1)) by lia.
    cbn [shr shr_record_of_loc shr_m].
    destruct q1 as [|p|p]; try (simpl in Hq1; lia).
    destruct (e' <=? emax - prec); [|exact I].
    cbn [at_least]. lia.
  - change (Zdigits2 (2 ^ 53)) with 54.
    replace (fexp prec emax (54 + e') - e') with 1 by binary64_lia.
    cbn.
    destruct (e' + 1 <=? emax - prec); [|exact I].
    cbn [at_least]. left. lia.
Qed.

Lemma Zdigits2_pos_bounds M :
  0 < M -> 2 ^ (Zdigits2 M - 1) <= M < 2 ^ Zdigits2 M.
Proof.
  destruct M as [|p|p]; try lia. intros _. apply digits2_pos_bounds.
Qed.

(** Rounding a positive mantissa of at least 53 bits does not go below a
    53-bit number it is at least as large as. *)
Lemma binary_round_aux_at_least M ez loc k e0 :
  0 < M -> 53 <= Zdigits2 M -> -1074 <= ez ->
  (e0 < ez + (Zdigits2 M - 53)
   \/ (ez + (Zdigits2 M - 53) = e0 /\ k * 2 ^ (Zdigits2 M - 53) <= M)) ->
  at_least k e0 (binary_round_aux prec emax false M ez loc).
Proof.
  intros HM Hd Hez Hk.
  set (n := Zdigits2 M - 53) in *.
  assert (Hn : 0 <= n) by (subst n; lia).
  pose proof (Zdigits2_pos_bounds M HM) as [Bl Bh].
  pose proof (Z.pow_pos_nonneg 2 n ltac:(lia) Hn) as Hpow.
  assert (E52 : 2 ^ (Zdigits2 M - 1) = 2 ^ 52 * 2 ^ n)
    by (rewrite <- Z.pow_add_r by lia; f_equal; subst n; lia).
  assert (E53 : 2 ^ Zdigits2 M = 2 ^ 53 * 2 ^ n)
    by (rewrite <- Z.pow_add_r by lia; f_equal; subst n; lia).
  assert (Hq0 : 2 ^ 52 <= M / 2 ^ n < 2 ^ 53).
  { split.
    - apply Z.div_le_lower_bound; [exact Hpow|]. rewrite Z.mul_comm, <- E52. exact Bl.
    - apply Z.div_lt_upper_bound; [exact Hpow|]. rewrite Z.mul_comm, <- E53. exact Bh. }
  unfold binary_round_aux, shr_fexp.
  replace (fexp prec emax (Zdigits2 M + ez) - ez) with n by (subst n; binary64_lia).
  destruct (shr_div M loc ez n ltac:(lia) Hn) as [He' Hm'].
  destruct (shr (shr_record_of_loc M loc) ez n) as [mrs' e'].
  cbn [fst snd] in He', Hm'. subst e'. rewrite Hm'.
  apply round_tail; [exact Hq0 | lia |].
  destruct Hk as [Hk | [Hk Hle]]; [left; exact Hk|].
  right. split; [exact Hk|].
  apply Z.div_le_lower_bound; [exact Hpow|]. rewrite Z.mul_comm. exact Hle.
Qed.

Lemma at_least_leb k e0 x :
  at_least (Zpos k) e0 x -> SFleb (S754_finite false k e0) x = true.
Proof.
  destruct x as [s|[]| |[] m e]; simpl; try contradiction; try reflexivity.
  intros H. unfold SFleb, SFcompare.
  destruct (Z.compare_spec e0 e) as [E|E|E]; [|reflexivity|lia].
  change (Pos.compare_cont Eq ?a ?b) with (Pos.compare a b).
  rewrite Pos2Z.inj_compare.
  destruct (Z.compare_spec (Zpos k) (Zpos m)); try reflexivity. lia.
Qed.

Lemma shl_align_value m e ez :
  ez <= e -> Zpos (fst (shl_align m e ez)) = Zpos m * 2 ^ (e - ez).
Proof.
  intros H. unfold shl_align.
  destruct (ez - e) as [|d|d] eqn:E; try lia; cbn [fst].
  - replace (e - ez) with 0 by lia. lia.
  - rewrite Pos_iter_xO. f_equal. f_equal. lia.
Qed.


(** *** Adding 9.5 and rounding *)

Lemma SFadd_at_least my ey :
  -1074 <= ey ->
  at_least 5348024557502464 (-49)
    (SF64add (S754_finite false my ey) (S754_finite false 5348024557502464 (-49))).
Proof.
  intros Hey. unfold SF64add, SFadd. cbn [cond_Zopp].
  match goal with
  | |- context [binary_normalize _ _ _ ?e _] => set (ez := e)
  end.
  assert (Hez : ez = Z.min ey (-49)) by reflexivity.
  set (a := fst (shl_align my ey ez)).
  set (b := fst (shl_align 5348024557502464 (-49) ez)).
  assert (Ha : Zpos a = Zpos my * 2 ^ (ey - ez)) by (apply shl_align_value; lia).
  assert (Hb : Zpos b = 5348024557502464 * 2 ^ (-49 - ez))
    by (apply shl_align_value; lia).
  change (Zpos a + Zpos b) with (Zpos (a + b)). cbn [binary_normalize].
  unfold binary_round.
  set (d := Zpos (digits2_pos (a + b))).
  pose proof (digits2_pos_bounds (a + b)) as [Bl Bh]. fold d in Bl, Bh.
  pose proof (Z.pow_pos_nonneg 2 (-49 - ez) ltac:(lia) ltac:(lia)) as Hpow.
  pose proof (Z.pow_pos_nonneg 2 (ey - ez) ltac:(lia) ltac:(lia)) as Hpow'.
  assert (HM : 5348024557502464 * 2 ^ (-49 - ez) <= Zpos (a + b)).
  { rewrite Pos2Z.inj_add, Ha, Hb. nia. }
  assert (Hd : 4 - ez <= d).
  { destruct (Z_lt_le_dec d (4 - ez)) as [Hlt|]; [exfalso|assumption].
    assert (2 ^ d <= 2 ^ (3 - ez)) by (apply Z.pow_le_mono_r; lia).
    assert (E : 2 ^ (3 - ez) = 2 ^ 52 * 2 ^ (-49 - ez))
      by (rewrite <- Z.pow_add_r by lia; f_equal; lia).
    assert (2 ^ 52 * 2 ^ (-49 - ez) <= 5348024557502464 * 2 ^ (-49 - ez))
      by (apply Z.mul_le_mono_nonneg_r; [lia|reflexivity || (cbv; discriminate)]).
    lia. }
  replace (fexp prec emax (d + ez)) with (d + ez - 53) by binary64_lia.
  unfold shl_align.
  destruct (d + ez - 53 - ez) as [|k|k] eqn:Ek; try lia.
  - apply binary_round_aux_at_least; try (cbn [Zdigits2]; fold d; lia).
    cbn [Zdigits2]. fold d.
    destruct (Z.eq_dec (ez + (d - 53)) (-49)) as [E|E]; [right|left; lia].
    split; [exact E|]. replace (d - 53) with (-49 - ez) by lia. exact HM.
  - apply binary_round_aux_at_least; try (cbn [Zdigits2]; fold d; lia).
    cbn [Zdigits2]. fold d.
    destruct (Z.eq_dec (ez + (d - 53)) (-49)) as [E|E]; [right|left; lia].
    split; [exact E|]. replace (d - 53) with (-49 - ez) by lia. exact HM.
Qed.

Lemma Prim2SF_exponent_bound x s m e :
  Prim2SF x = S754_finite s m e ->
  -1074 <= e /\ (-1074 < e -> 2 ^ 52 <= Zpos m).
Proof.
  intros E. pose proof (Prim2SF_valid x) as Hv. rewrite E in Hv.
  unfold valid_binary, bounded, canonical_mantissa in Hv.
  apply andb_prop in Hv. destruct Hv as [Hc _]. apply Z.eqb_eq in Hc.
  split; [binary64_lia|].
  intros He.
  assert (Hd : Zpos (digits2_pos m) = 53) by binary64_lia.
  pose proof (digits2_pos_bounds m) as [Bl _]. rewrite Hd in Bl. exact Bl.
Qed.

Local Open Scope float_scope.

Lemma add_nine_and_a_half (y : float) :
  (0 <=? y) = true -> (9.5 <=? y + 9.5) = true.
Proof.
  intros Hy. apply leb_zero_spec in Hy.
  rewrite FloatAxioms.leb_spec, add_spec.
  change (Prim2SF 9.5) with (S754_finite false 5348024557502464 (-49)).
  destruct (Prim2SF y) as [s|[]| |[] my ey] eqn:E; try contradiction.
  - reflexivity.
  - reflexivity.
  - apply at_least_leb, SFadd_at_least.
    apply (Prim2SF_exponent_bound y _ _ _ E).
Qed.

Local Close Scope float_scope.

Lemma binary_normalize_int_at_least p k e0 :
  Zpos p < 2 ^ 53 ->
  (e0 < Zpos (digits2_pos p) - 53
   \/ (Zpos (digits2_pos p) - 53 = e0
       /\ k <= Zpos p * 2 ^ (53 - Zpos (digits2_pos p)))) ->
  at_least k e0 (binary_normalize prec emax (Zpos p) 0 false).
Proof.
  intros Hp Hk.
  pose proof (digits2_pos_le_53 p Hp) as Hd.
  pose proof (digits2_pos_bounds p) as [Bl Bh].
  cbn [binary_normalize]. unfold binary_round.
  replace (fexp prec emax (Zpos (digits2_pos p) + 0)) with (Zpos (digits2_pos p) - 53)
    by binary64_lia.
  unfold shl_align.
  destruct (Zpos (digits2_pos p) - 53 - 0) as [|j|j] eqn:Ej; try lia.
  - assert (Hd53 : Zpos (digits2_pos p) = 53) by lia. rewrite Hd53 in Bl, Hk.
    change (53 - 1) with 52 in Bl.
    assert (HD : Zdigits2 (Zpos p) = 53) by (apply Zdigits2_normal; lia).
    apply binary_round_aux_at_least; rewrite ?HD; try lia.
    all: change (53 - 53) with 0 in *; rewrite Z.pow_0_r, Z.mul_1_r in *; lia.
  - assert (Hj : Zpos j = 53 - Zpos (digits2_pos p)) by lia.
    assert (Hm : 2 ^ 52 <= Zpos (Pos.iter xO p j) < 2 ^ 53).
    { rewrite Pos_iter_xO.
      assert (E52 : 2 ^ 52 = 2 ^ (Zpos (digits2_pos p) - 1) * 2 ^ Zpos j)
        by (rewrite <- Z.pow_add_r by lia; f_equal; lia).
      assert (E53 : 2 ^ 53 = 2 ^ Zpos (digits2_pos p) * 2 ^ Zpos j)
        by (rewrite <- Z.pow_add_r by lia; f_equal; lia).
      rewrite E52, E53.
      pose proof (Z.pow_pos_nonneg 2 (Zpos j) ltac:(lia) ltac:(lia)) as Hpos.
      split.
      - apply Z.mul_le_mono_nonneg_r; [lia | exact Bl].
      - apply Z.mul_lt_mono_pos_r; [exact Hpos | exact Bh]. }
    assert (HD : Zdigits2 (Zpos (Pos.iter xO p j)) = 53) by (apply Zdigits2_normal, Hm).
    apply binary_round_aux_at_least; rewrite ?HD; try lia.
    all: change (53 - 53) with 0; rewrite Z.pow_0_r, Z.mul_1_r, Z.add_0_r;
      rewrite Pos_iter_xO, Hj;
      destruct Hk as [Hk | [Hk Hle]]; [left; lia|right]; split; [lia|exact Hle].
Qed.

Local Open Scope float_scope.

Lemma float_of_Z_ge_10 n : (10 <= n < 2 ^ 53)%Z -> (10 <=? float_of_Z n) = true.
Proof.
  intros Hn. unfold float_of_Z.
  replace (n <? 0)%Z with false by (symmetry; apply Z.ltb_ge; lia).
  rewrite FloatAxioms.leb_spec, of_uint63_spec, to_Z_of_Z_small by lia.
  change (Prim2SF 10) with (S754_finite false 5629499534213120 (-49)).
  destruct n as [|p|p]; try lia.
  apply at_least_leb, binary_normalize_int_at_least; [lia|].
  pose proof (digits2_pos_bounds p) as [Bl Bh].
  set (d := Zpos (digits2_pos p)) in *.
  assert (Hd : (4 <= d)%Z).
  { destruct (Z_lt_le_dec d 4%Z) as [Hlt|]; [exfalso|assumption].
    assert (2 ^ d <= 2 ^ 3)%Z by (apply Z.pow_le_mono_r; lia).
    change (2 ^ 3)%Z with 8%Z in *. lia. }
  destruct (Z.eq_dec d 4%Z) as [E|E]; [right|left; lia].
  split; [lia|]. rewrite E. change (2 ^ (53 - 4))%Z with 562949953421312%Z. lia.
Qed.

Lemma Math_round_ge_10 (x : float) :
  (9.5 <=? x) = true -> (10 <=? Math_round x) = true.
Proof.
  intros Hx. rewrite FloatAxioms.leb_spec in Hx.
  change (Prim2SF 9.5) with (S754_finite false 5348024557502464 (-49)) in Hx.
  unfold Math_round.
  destruct (Prim2SF x) as [s|[]| |[] m e] eqn:E; try discriminate Hx.
  - rewrite FloatAxioms.leb_spec, E. reflexivity.
  - destruct (0 <=? e)%Z eqn:He.
    + apply Z.leb_le in He. rewrite FloatAxioms.leb_spec, E.
      change (Prim2SF 10) with (S754_finite false 5629499534213120 (-49)).
      unfold SFleb, SFcompare.
      destruct (Z.compare_spec (-49) e); first [lia | reflexivity].
    + apply Z.leb_gt in He.
      pose proof (SFleb_finite_exp _ _ _ _ Hx) as He49.
      pose proof (round_half_up_bounds m e He (Prim2SF_mantissa_bound x _ _ _ E)) as Hn.
      destruct (Prim2SF_exponent_bound x _ _ _ E) as [_ Hnorm].
      assert (H10 : (10 <= round_half_up false m e)%Z).
      { unfold round_half_up.
        set (d := (2 ^ (- e))%Z).
        assert (Hd : (0 < d)%Z) by (apply Z.pow_pos_nonneg; lia).
        apply Z.div_le_lower_bound; [lia|].
        destruct (Z.eq_dec e (-49)%Z) as [E49|E49].
        - subst e. apply SFcompare_finite_le in Hx.
          subst d. change (2 ^ (- -49))%Z with 562949953421312%Z. lia.
        - assert (Hd48 : (d <= 2 ^ 48)%Z)
            by (subst d; apply Z.pow_le_mono_r; lia).
          pose proof (Hnorm ltac:(lia)) as Hm.
          change (2 ^ 48)%Z with 281474976710656%Z in Hd48.
          change (2 ^ 52)%Z with 4503599627370496%Z in Hm. lia. }
      replace (round_half_up false m e =? 0)%Z with false
        by (symmetry; apply Z.eqb_neq; lia).
      apply float_of_Z_ge_10. lia.
Qed.


(** X19: for every linear zoom that is at least 0, however large, the font
    size [linearProps] returns lies between 10 and 18: rounding
    [zoom * 0.1 + 9.5] never gives less than 10, and the cap does the
    rest. *)
Theorem linearProps_font_size (c : Component) :
  (0 <=? zoom_linear (p_zoom (props c))) = true ->
  exists r : LinearLayout,
    fst (linearProps c) = inr r
    /\ (10 <=? seqFontSize r) = true
    /\ (seqFontSize r <=? 18) = true.
Proof.
  intros Hz. eexists. split; [reflexivity|].
  set (zoom := zoom_linear (p_zoom (props c))) in *.
  change (seqFontSize (linearLayout _ _ _ _ _))
    with (Math_min (Math_round (zoom * 0.1 + 9.5)) 18).
  assert (Hy : (0 <=? zoom * 0.1) = true).
  { apply zero_or_pos_leb. rewrite mul_spec.
    apply SFmul_zero_or_pos; [apply leb_zero_spec, Hz|exact I]. }
  pose proof (Math_round_ge_10 _ (add_nine_and_a_half _ Hy)) as Hr.
  split.
  - destruct (Math_min_cases (Math_round (zoom * 0.1 + 9.5)) 18) as [-> | ->];
      [apply (leb_not_nan _ _ Hr) | reflexivity | exact Hr | reflexivity].
  - apply seqFontSize_le_18. apply (leb_not_nan _ _ Hz).
Qed.

Lemma linearProps_font_size_sample :
  exists r : LinearLayout,
    fst (linearProps (mount (sampleProps linear "dna" 10000 800 600 50 None None))) = inr r
    /\ (10 <=? seqFontSize r) = true
    /\ (seqFontSize r <=? 18) = true.
Proof.
  exact (linearProps_font_size
           (mount (sampleProps linear "dna" 10000 800 600 50 None None)) eq_refl).
Defined.

Local Close Scope float_scope.


(** * Properties of the JBEI reader *)

Local Open Scope float_scope.

(** ** Reading properties *)

Lemma js_get_truthy (v : Js) (k : string) :
  js_truthy v = true -> exists w, js_get v k = inr w.
Proof. destruct v; try discriminate; intros _; eexists; reflexivity. Qed.

Lemma hasFirst_returns (x : Js) (k : string) : exists b, hasFirst x k = inr b.
Proof.
  unfold hasFirst. destruct (js_truthy x) eqn:Hx; [|eauto].
  destruct (js_get_truthy x "0" Hx) as [x0 ->]. cbn.
  destruct (js_truthy x0) eqn:H0; [|eauto].
  destruct (js_get_truthy x0 k H0) as [v ->]. cbn. eauto.
Qed.

Lemma hasFirst_true (x : Js) (k : string) :
  hasFirst x k = inr true ->
  exists x0 v, js_get x "0" = inr x0 /\ js_get x0 k = inr v /\ js_truthy v = true.
Proof.
  unfold hasFirst. destruct (js_truthy x) eqn:Hx; [|discriminate].
  destruct (js_get_truthy x "0" Hx) as [x0 E0]. rewrite E0. cbn.
  destruct (js_truthy x0) eqn:H0; [|discriminate].
  destruct (js_get_truthy x0 k H0) as [v Ev]. rewrite Ev. cbn.
  intros [= Hv]. exists x0, v. auto.
Qed.

Lemma hasFirst_textOf (x : Js) :
  hasFirst x "_" = inr true -> exists v, textOf x = inr v /\ js_truthy v = true.
Proof.
  intros H. destruct (hasFirst_true x "_" H) as (x0 & v & H0 & Hv & Ht).
  exists v. unfold textOf. rewrite H0. cbn. rewrite Hv. auto.
Qed.

Lemma js_or_truthy (a : Js) (s : string) :
  s <> EmptyString -> js_truthy (js_or a (JStr s)) = true.
Proof.
  intros Hs. unfold js_or. destruct (js_truthy a) eqn:Ha; [exact Ha|].
  cbn. destruct (String.eqb_spec s EmptyString); [contradiction|reflexivity].
Qed.

Lemma numberOrZero_spec (x : float) :
  exists y, numberOrZero x = JNum y /\ is_nan y = false
            /\ (y = 0 \/ num_truthy y = true).
Proof.
  unfold numberOrZero. destruct (num_truthy x) eqn:Hx.
  - exists x. split; [reflexivity|]. split; [|right; exact Hx].
    unfold num_truthy in Hx. destruct (is_nan x); [|reflexivity].
    rewrite orb_true_r in Hx. discriminate.
  - exists 0. repeat split. left. reflexivity.
Qed.


Section JbeiFacts.
Variable ToNumber : Js -> float.
Variable ToString : Js -> string.
Variable dnaComplement : Js -> Js.
Variable partFactory : gmap string Js.
Variable colorByIndex : nat -> Js.
Variable randomid : nat -> Js.


(** ** Annotations *)

Lemma annotationOf_some (i n : nat) (feature a : Js) :
  annotationOf ToNumber colorByIndex randomid i n feature = inr (Some a) ->
  js_truthy feature = true /\ annotationFor colorByIndex randomid i n a.
Proof.
  unfold annotationOf. destruct (js_truthy feature) eqn:Hf; [|discriminate].
  cbn [negb].
  destruct (js_get feature "label") as [[]|label]; [discriminate|]. cbn.
  destruct (js_get feature "type") as [[]|type]; [discriminate|]. cbn.
  destruct (js_get feature "complement") as [[]|complement]; [discriminate|]. cbn.
  destruct (js_get feature "location") as [[]|location]; [discriminate|]. cbn.
  destruct (hasBoth _ _ _) as [[]|[]]; try discriminate. cbn.
  destruct (textOf (js_default complement _)) as [[]|c]; [discriminate|]. cbn.
  destruct (js_get (js_default location _) "0") as [[]|l0]; [discriminate|]. cbn.
  destruct (js_get l0 "end") as [[]|e]; [discriminate|]. cbn.
  destruct (textOf e) as [[]|e_]; [discriminate|]. cbn.
  destruct (textOf (js_default label _)) as [[]|l]; [discriminate|]. cbn.
  destruct (js_get l0 "genbankStart") as [[]|s]; [discriminate|]. cbn.
  destruct (textOf s) as [[]|s_]; [discriminate|]. cbn.
  destruct (textOf (js_default type _)) as [[]|t]; [discriminate|]. cbn.
  intros [= <-]. split; [reflexivity|].
  eexists. split; [reflexivity|].
  split; [rewrite !dom_insert_L, dom_singleton_L; set_solver|].
  split; [reflexivity|]. split; [reflexivity|].
  split; [destruct (js_is_string c "true"); [right|left]; reflexivity|].
  split; [eexists; split; [reflexivity|apply numberOrZero_spec]|].
  split; [eexists; split; [reflexivity|apply numberOrZero_spec]|].
  split; eexists; (split; [reflexivity|apply js_or_truthy; discriminate]).
Qed.

Lemma forEachFeature_from (features : list Js) :
  forall (i : nat) (acc anns : list Js),
    forEachFeature ToNumber colorByIndex randomid i features acc = inr anns ->
    exists (new : list Js) (idx : list nat),
      anns = acc ++ new
      /\ length idx = length new
      /\ (length new <= length features)%nat
      /\ increasing idx
      /\ Forall (fun j => (i <= j < i + length features)%nat) idx
      /\ (forall k a j, new !! k = Some a -> idx !! k = Some j ->
          annotationFor colorByIndex randomid j (length acc + k) a
          /\ exists feature, features !! (j - i)%nat = Some feature
                             /\ js_truthy feature = true).
Proof.
  induction features as [|feature rest IH]; intros i acc anns H.
  - cbn in H. injection H as <-. exists [], []. rewrite app_nil_r.
    repeat split; try constructor.
    + intros k k' j j' _ Hk. discriminate Hk.
    + discriminate.
    + discriminate.
  - cbn in H.
    destruct (annotationOf ToNumber colorByIndex randomid i (length acc) feature) as [[]|[a|]] eqn:Ea;
      cbn in H; [discriminate| |].
    + apply IH in H. destruct H as (new & idx & -> & Hl & Hle & Hs & Hr & Hk).
      apply annotationOf_some in Ea. destruct Ea as [Hf Ha].
      exists (a :: new), (i :: idx).
      split; [rewrite <- app_assoc; reflexivity|].
      split; [cbn; lia|]. split; [cbn; lia|].
      split.
      { intros [|k] [|k'] j j' Hlt Hj Hj'; cbn in Hj, Hj'; try lia.
        - injection Hj as <-.
          pose proof (proj1 (Forall_lookup _ _) Hr k' j' Hj') as Hjr. cbn in Hjr. lia.
        - apply (Hs k k' j j'); [lia|assumption|assumption]. }
      split.
      { constructor; [cbn; lia|].
        eapply Forall_impl; [exact Hr|]. cbn. intros j Hj. lia. }
      intros [|k] b j Hb Hj; cbn in Hb, Hj.
      * injection Hb as <-. injection Hj as <-.
        rewrite Nat.add_0_r, Nat.sub_diag. split; [exact Ha|].
        exists feature. split; [reflexivity|exact Hf].
      * destruct (Hk k b j Hb Hj) as [Hb' (f & Hf' & Hft)].
        rewrite length_app in Hb'. cbn in Hb'.
        replace (length acc + S k)%nat with (length acc + 1 + k)%nat by lia.
        split; [exact Hb'|].
        pose proof (proj1 (Forall_lookup _ _) Hr k j Hj) as Hjr. cbn in Hjr.
        exists f. replace (j - i)%nat with (S (j - S i)) by lia.
        split; [exact Hf'|exact Hft].
    + apply IH in H. destruct H as (new & idx & -> & Hl & Hle & Hs & Hr & Hk).
      exists new, idx.
      split; [reflexivity|]. split; [exact Hl|]. split; [cbn; lia|].
      split; [exact Hs|].
      split.
      { eapply Forall_impl; [exact Hr|]. cbn. intros j Hj. lia. }
      intros k b j Hb Hj.
      destruct (Hk k b j Hb Hj) as [Hb' (f & Hf' & Hft)].
      split; [exact Hb'|].
      pose proof (proj1 (Forall_lookup _ _) Hr k j Hj) as Hjr. cbn in Hjr.
      exists f. replace (j - i)%nat with (S (j - S i)) by lia.
      split; [exact Hf'|exact Hft].
Qed.

(** X14: when the loop over the features completes, it has pushed at most
    one annotation per feature, in feature order and only for truthy
    features.  The k-th annotation carries the k-th identifier drawn and
    the colour of its feature's index in the document (not of its own
    position); its direction is 1 or -1, its start and end are numbers
    that are never NaN, and its name and type are never empty. *)
Theorem forEachFeature_annotations (features anns : list Js) :
  forEachFeature ToNumber colorByIndex randomid 0 features [] = inr anns ->
  exists idx : list nat,
    length idx = length anns
    /\ (length anns <= length features)%nat
    /\ increasing idx
    /\ (forall k a j, anns !! k = Some a -> idx !! k = Some j ->
        annotationFor colorByIndex randomid j k a
        /\ exists feature, features !! j = Some feature /\ js_truthy feature = true).
Proof.
  intros H. apply forEachFeature_from in H.
  destruct H as (new & idx & -> & Hl & Hle & Hs & Hr & Hk).
  exists idx. cbn [app].
  split; [exact Hl|]. split; [exact Hle|]. split; [exact Hs|].
  intros k a j Ha Hj. destruct (Hk k a j Ha Hj) as [Hb (f & Hf & Hft)].
  cbn in Hb. rewrite Nat.sub_0_r in Hf. eauto.
Qed.

End JbeiFacts.


Section JbeiCallback.
Variable ToNumber : Js -> float.
Variable ToString : Js -> string.
Variable dnaComplement : Js -> Js.
Variable partFactory : gmap string Js.
Variable colorByIndex : nat -> Js.
Variable randomid : nat -> Js.

(** ** The part *)

(** What a completed run of the callback's body has read and built. *)
Lemma readPart_some (fileString : string) (parsedJBEI part : Js) :
  readPart ToNumber dnaComplement partFactory colorByIndex randomid fileString parsedJBEI
  = inr (Some part) ->
  exists (seq circular features name sequence : Js)
         (parsedName parsedSeq parsedCompSeq parsedSeq2 len : Js)
         (parsedCircular : bool) (annotations : list Js),
    js_get parsedJBEI "seq" = inr seq
    /\ js_get seq "circular" = inr circular
    /\ js_get seq "features" = inr features
    /\ js_get seq "name" = inr name
    /\ js_get seq "sequence" = inr sequence
    /\ (hasFirst name "_" = inr true /\ textOf name = inr parsedName
        \/ hasFirst name "_" = inr false /\ parsedName = JStr "Unnamed")
    /\ (hasFirst sequence "_" = inr true /\ textOf sequence = inr parsedSeq
        \/ hasFirst sequence "_" = inr false /\ parsedSeq = JStr EmptyString)
    /\ js_get (dnaComplement parsedSeq) "compSeq" = inr parsedCompSeq
    /\ js_get (dnaComplement parsedSeq) "seq" = inr parsedSeq2
    /\ js_truthy parsedSeq2 = true
    /\ js_get parsedSeq2 "length" = inr len
    /\ (hasFirst circular "_" = inr true
        /\ (exists c, textOf circular = inr c /\ parsedCircular = js_is_string c "true")
        \/ hasFirst circular "_" = inr false
           /\ parsedCircular = (2000 <? ToNumber len)%float)
    /\ (hasFirst features "feature" = inr true
        /\ (exists f0 items,
              js_get features "0" = inr f0
              /\ js_get f0 "feature" = inr (JArr items)
              /\ forEachFeature ToNumber colorByIndex randomid 0 items [] = inr annotations)
        \/ hasFirst features "feature" = inr false /\ annotations = [])
    /\ part = JObj (<["annotations"%string := JArr annotations]>
                   (<["circular"%string := JBool parsedCircular]>
                   (<["compSeq"%string := parsedCompSeq]>
                   (<["name"%string := parsedName]>
                   (<["seq"%string := parsedSeq2]>
                   (<["source"%string := JStr fileString]> partFactory)))))).
Proof.
  unfold readPart, mbind, Thrown_bind.
  destruct (js_get parsedJBEI "seq") as [[]|seq] eqn:?; [discriminate|].
  destruct (js_get seq "circular") as [[]|circular] eqn:?; [discriminate|].
  destruct (js_get seq "features") as [[]|features] eqn:?; [discriminate|].
  destruct (js_get seq "name") as [[]|name] eqn:?; [discriminate|].
  destruct (js_get seq "sequence") as [[]|sequence] eqn:?; [discriminate|].
  destruct (hasFirst name "_") as [[]|hasName] eqn:?; [discriminate|].
  destruct (if hasName then textOf name else inr (JStr "Unnamed"))
    as [[]|parsedName] eqn:EparsedName; [discriminate|].
  destruct (hasFirst sequence "_") as [[]|hasSequence] eqn:?; [discriminate|].
  destruct (if hasSequence then textOf sequence else inr (JStr EmptyString))
    as [[]|parsedSeq] eqn:EparsedSeq; [discriminate|].
  destruct (js_get (dnaComplement parsedSeq) "compSeq") as [[]|parsedCompSeq] eqn:?;
    [discriminate|].
  destruct (js_get (dnaComplement parsedSeq) "seq") as [[]|parsedSeq2] eqn:?;
    [discriminate|].
  destruct (js_truthy parsedSeq2) eqn:?; [|discriminate]. cbn [negb].
  destruct (js_get parsedSeq2 "length") as [[]|len] eqn:?; [discriminate|].
  destruct (hasFirst circular "_") as [[]|hasCircular] eqn:?; [discriminate|].
  match goal with
  | |- context [if hasCircular then ?a else ?b] =>
      destruct (if hasCircular then a else b)
        as [[]|parsedCircular] eqn:EparsedCircular; [discriminate|]
  end.
  destruct (hasFirst features "feature") as [[]|hasFeatures] eqn:?; [discriminate|].
  match goal with
  | |- context [if hasFeatures then ?a else ?b] =>
      destruct (if hasFeatures then a else b)
        as [[]|annotations] eqn:Eannotations; [discriminate|]
  end.
  intros [= <-].
  exists seq, circular, features, name, sequence,
         parsedName, parsedSeq, parsedCompSeq, parsedSeq2, len,
         parsedCircular, annotations.
  repeat (split; [first [reflexivity | assumption]|]).
  split.
  { destruct hasName; [left|right]; split; congruence. }
  split.
  { destruct hasSequence; [left|right]; split; congruence. }
  repeat (split; [first [reflexivity | assumption]|]).
  split.
  { destruct hasCircular; [left|right]; (split; [first [reflexivity | assumption]|]).
    - destruct (textOf circular) as [[]|c]; [discriminate|].
      exists c. split; congruence.
    - congruence. }
  split; [|reflexivity].
  destruct hasFeatures; [left|right]; (split; [first [reflexivity | assumption]|]); [|congruence].
  destruct (js_get features "0") as [[]|f0] eqn:?; [discriminate|].
  destruct (js_get f0 "feature") as [[]|f] eqn:?; [discriminate|].
  destruct f; try discriminate. eauto.
Qed.

Lemma callback_resolved (fileString : string) (err parsedJBEI value : Js) :
  promise (callback ToNumber ToString dnaComplement partFactory colorByIndex randomid
             Pending fileString err parsedJBEI) = Resolved value ->
  js_truthy err = false
  /\ threw (callback ToNumber ToString dnaComplement partFactory colorByIndex randomid
              Pending fileString err parsedJBEI) = false
  /\ exists part,
       value = JArr [part]
       /\ readPart ToNumber dnaComplement partFactory colorByIndex randomid
            fileString parsedJBEI = inr (Some part).
Proof.
  unfold callback.
  destruct (readPart _ _ _ _ _ _ _) as [[]|[part|]];
    destruct (js_truthy err); cbn; try discriminate.
  intros [= <-]. eauto.
Qed.

Lemma textOf_hasFirst (x v : Js) :
  textOf x = inr v -> js_truthy v = true -> hasFirst x "_" = inr true.
Proof.
  unfold textOf, hasFirst, mbind, Thrown_bind.
  destruct (js_get x "0") as [[]|x0] eqn:E0; [discriminate|].
  intros Ev Hv.
  assert (H0 : js_truthy x0 = true).
  { destruct x0 as [| |b|n|s|items|fields]; try discriminate; try reflexivity;
      cbn in Ev; injection Ev as <-; discriminate Hv. }
  assert (Hx : js_truthy x = true).
  { destruct x as [| |b|n|s|items|fields]; try discriminate; try reflexivity;
      cbn in E0; injection E0 as <-; try discriminate H0.
    destruct s; [discriminate H0|reflexivity]. }
  rewrite Hx, H0, Ev, Hv. reflexivity.
Qed.

(** X16: whenever the callback resolves a pending promise, [err] was falsy,
    nothing was thrown, and the value is a one-element array holding a part
    whose [source] is the file string, whose [name] and [seq] are truthy
    (the sequence and its complement are what [dnaComplement] returned),
    whose [circular] is a boolean and whose [annotations] is an array;
    every other key is the one of [partFactory()], which cannot override
    these six. *)
Theorem callback_resolves_with_part (fileString : string) (err parsedJBEI value : Js) :
  let out := callback ToNumber ToString dnaComplement partFactory colorByIndex randomid
               Pending fileString err parsedJBEI in
  promise out = Resolved value ->
  js_truthy err = false
  /\ threw out = false
  /\ exists (part : gmap string Js) (name seq compSeq input : Js) (circular : bool)
            (annotations : list Js),
       value = JArr [JObj part]
       /\ part !! "source"%string = Some (JStr fileString)
       /\ part !! "name"%string = Some name /\ js_truthy name = true
       /\ part !! "seq"%string = Some seq /\ js_truthy seq = true
       /\ js_get (dnaComplement input) "seq" = inr seq
       /\ js_get (dnaComplement input) "compSeq" = inr compSeq
       /\ part !! "compSeq"%string = Some compSeq
       /\ part !! "circular"%string = Some (JBool circular)
       /\ part !! "annotations"%string = Some (JArr annotations)
       /\ (forall k, k ∉ partKeys -> part !! k = partFactory !! k).
Proof.
  intros out Hres. subst out.
  destruct (callback_resolved _ _ _ _ Hres) as (Herr & Hthrew & part & -> & Hpart).
  split; [exact Herr|]. split; [exact Hthrew|].
  destruct (readPart_some _ _ _ Hpart)
    as (seq & circular & features & name & sequence & parsedName & parsedSeq
        & parsedCompSeq & parsedSeq2 & len & parsedCircular & annotations
        & _ & _ & _ & _ & _ & Hname & _ & Hcomp & Hseq2 & Htruthy & _ & _ & _ & ->).
  eexists _, parsedName, parsedSeq2, parsedCompSeq, parsedSeq, parsedCircular, annotations.
  split; [reflexivity|].
  split; [repeat (rewrite lookup_insert_ne by discriminate); apply lookup_insert_eq|].
  split; [repeat (rewrite lookup_insert_ne by discriminate); apply lookup_insert_eq|].
  split.
  { destruct Hname as [[Hn Ht] | [_ ->]]; [|reflexivity].
    destruct (hasFirst_textOf name Hn) as (v & Hv & Hvt). congruence. }
  split; [repeat (rewrite lookup_insert_ne by discriminate); apply lookup_insert_eq|].
  split; [exact Htruthy|]. split; [exact Hseq2|]. split; [exact Hcomp|].
  split; [repeat (rewrite lookup_insert_ne by discriminate); apply lookup_insert_eq|].
  split; [repeat (rewrite lookup_insert_ne by discriminate); apply lookup_insert_eq|].
  split; [apply lookup_insert_eq|].
  intros k Hk. unfold partKeys in Hk.
  repeat (apply not_elem_of_cons in Hk; destruct Hk as [? Hk]).
  repeat (rewrite lookup_insert_ne by congruence). reflexivity.
Qed.

(** X17: in a part the callback resolves with, the name is the text of the
    document's [name] element when that text is truthy and ["Unnamed"]
    otherwise.  A truthy text of the [circular] element alone decides the
    topology: the part is circular exactly when the text is the string
    ["true"], whatever the length of the sequence; only without such a
    text is the length of the sequence compared with 2000. *)
Theorem callback_name_and_topology (fileString : string) (err parsedJBEI : Js)
    (part : gmap string Js) (seqNode name circular : Js) :
  promise (callback ToNumber ToString dnaComplement partFactory colorByIndex randomid
             Pending fileString err parsedJBEI) = Resolved (JArr [JObj part]) ->
  js_get parsedJBEI "seq" = inr seqNode ->
  js_get seqNode "name" = inr name ->
  js_get seqNode "circular" = inr circular ->
  (forall n, textOf name = inr n -> js_truthy n = true -> part !! "name"%string = Some n)
  /\ (hasFirst name "_" = inr false -> part !! "name"%string = Some (JStr "Unnamed"))
  /\ (forall c, textOf circular = inr c -> js_truthy c = true ->
      part !! "circular"%string = Some (JBool (js_is_string c "true")))
  /\ (hasFirst circular "_" = inr false ->
      exists seq len,
        part !! "seq"%string = Some seq
        /\ js_get seq "length" = inr len
        /\ part !! "circular"%string = Some (JBool (2000 <? ToNumber len)%float)).
Proof.
  intros Hres Hseq Hname Hcirc.
  destruct (callback_resolved _ _ _ _ Hres) as (_ & _ & part' & [= <-] & Hpart).
  destruct (readPart_some _ _ _ Hpart)
    as (seq' & circular' & features & name' & sequence & parsedName & parsedSeq
        & parsedCompSeq & parsedSeq2 & len & parsedCircular & annotations
        & Hseq' & Hcirc' & _ & Hname' & _ & Hn & _ & _ & _ & _ & Hlen & Hc & _ & [= ->]).
  rewrite Hseq in Hseq'. injection Hseq' as <-.
  rewrite Hname in Hname'. injection Hname' as <-.
  rewrite Hcirc in Hcirc'. injection Hcirc' as <-.
  assert (Lname : forall m : gmap string Js,
             (<["annotations"%string := JArr annotations]>
              (<["circular"%string := JBool parsedCircular]>
              (<["compSeq"%string := parsedCompSeq]>
              (<["name"%string := parsedName]> m)))) !! "name"%string = Some parsedName).
  { intros m. repeat (rewrite lookup_insert_ne by discriminate). apply lookup_insert_eq. }
  assert (Lcirc : forall m : gmap string Js,
             (<["annotations"%string := JArr annotations]>
              (<["circular"%string := JBool parsedCircular]> m)) !! "circular"%string
             = Some (JBool parsedCircular)).
  { intros m. rewrite lookup_insert_ne by discriminate. apply lookup_insert_eq. }
  rewrite Lname, Lcirc.
  split.
  { intros n Ht Hnt. pose proof (textOf_hasFirst name n Ht Hnt) as Hf.
    destruct Hn as [[_ Hn] | [Hn _]]; congruence. }
  split.
  { intros Hf. destruct Hn as [[Hn _] | [_ ->]]; [congruence|reflexivity]. }
  split.
  { intros c Ht Hct. pose proof (textOf_hasFirst circular c Ht Hct) as Hf.
    destruct Hc as [[_ (c' & Hc' & ->)] | [Hc _]]; congruence. }
  intros Hf. exists parsedSeq2, len.
  split; [repeat (rewrite lookup_insert_ne by discriminate); apply lookup_insert_eq|].
  split; [exact Hlen|].
  destruct Hc as [[Hc _] | [_ ->]]; [congruence|reflexivity].
Qed.

End JbeiCallback.


Lemma forEachFeature_annotations_sample :
  exists idx : list nat,
    length idx = length sampleAnnotations
    /\ (length sampleAnnotations <= length sampleFeatures)%nat
    /\ increasing idx
    /\ (forall k a j, sampleAnnotations !! k = Some a -> idx !! k = Some j ->
        annotationFor sampleColor sampleId j k a
        /\ exists feature, sampleFeatures !! j = Some feature /\ js_truthy feature = true).
Proof.
  apply (forEachFeature_annotations sampleToNumber sampleColor sampleId
           sampleFeatures sampleAnnotations).
  vm_compute. reflexivity.
Defined.

Lemma callback_resolves_with_part_sample :
  let out := callback sampleToNumber sampleToString sampleComplement ∅ sampleColor sampleId
               Pending "<seq/>" JNull sampleDocument in
  js_truthy JNull = false
  /\ threw out = false
  /\ exists (part : gmap string Js) (name seq compSeq input : Js) (circular : bool)
            (annotations : list Js),
       JArr [JObj samplePart] = JArr [JObj part]
       /\ part !! "source"%string = Some (JStr "<seq/>")
       /\ part !! "name"%string = Some name /\ js_truthy name = true
       /\ part !! "seq"%string = Some seq /\ js_truthy seq = true
       /\ js_get (sampleComplement input) "seq" = inr seq
       /\ js_get (sampleComplement input) "compSeq" = inr compSeq
       /\ part !! "compSeq"%string = Some compSeq
       /\ part !! "circular"%string = Some (JBool circular)
       /\ part !! "annotations"%string = Some (JArr annotations)
       /\ (forall k, k ∉ partKeys -> part !! k = (∅ : gmap string Js) !! k).
Proof.
  apply (callback_resolves_with_part sampleToNumber sampleToString sampleComplement ∅
           sampleColor sampleId "<seq/>" JNull sampleDocument (JArr [JObj samplePart])).
  vm_compute. reflexivity.
Defined.

Lemma callback_name_and_topology_sample :
  (forall n, textOf (element "pTest") = inr n -> js_truthy n = true ->
             samplePart !! "name"%string = Some n)
  /\ (hasFirst (element "pTest") "_" = inr false ->
      samplePart !! "name"%string = Some (JStr "Unnamed"))
  /\ (forall c, textOf (element "false") = inr c -> js_truthy c = true ->
      samplePart !! "circular"%string = Some (JBool (js_is_string c "true")))
  /\ (hasFirst (element "false") "_" = inr false ->
      exists seq len,
        samplePart !! "seq"%string = Some seq
        /\ js_get seq "length" = inr len
        /\ samplePart !! "circular"%string = Some (JBool (2000 <? sampleToNumber len)%float)).
Proof.
  apply (callback_name_and_topology sampleToNumber sampleToString sampleComplement ∅
           sampleColor sampleId "<seq/>" JNull sampleDocument samplePart sampleSeq
           (element "pTest") (element "false"));
    vm_compute; reflexivity.
Defined.


(** ** Directed quotation marks *)

Lemma is_directed_quote_shape (a b c : ascii) :
  is_directed_quote a b c = true ->
  b <> ascii_of_nat 34 /\ c <> ascii_of_nat 34 /\ a <> ascii_of_nat 34.
Proof.
  unfold is_directed_quote. intros H.
  apply andb_prop in H. destruct H as [H Hc].
  apply andb_prop in H. destruct H as [Ha Hb].
  apply Ascii.eqb_eq in Ha, Hb. subst a b.
  split; [discriminate|]. split; [|discriminate].
  apply orb_prop in Hc. destruct Hc as [Hc | Hc]; apply Ascii.eqb_eq in Hc;
    subst c; discriminate.
Qed.

Lemma straight_quote_not_directed (b c : ascii) :
  is_directed_quote (ascii_of_nat 34) b c = false.
Proof. reflexivity. Qed.

(** The first character of the result is the first character of the
    argument unless it is the straight quotation mark. *)
Lemma replaceQuotes_head (s r : string) (x : ascii) :
  replaceQuotes s = String x r -> x <> ascii_of_nat 34 ->
  exists s', s = String x s' /\ r = replaceQuotes s'.
Proof.
  destruct s as [|a s']; [discriminate|].
  cbn [replaceQuotes].
  destruct s' as [|b [|c rest]].
  - intros [= <- <-] _. eauto.
  - intros [= <- <-] _. eauto.
  - destruct (is_directed_quote a b c).
    + intros [= <- _] Hx. contradiction.
    + intros [= <- <-] _. eauto.
Qed.

Lemma replaceQuotes_no_new_quote (a b' c' : ascii) (s r : string) :
  replaceQuotes s = String b' (String c' r) ->
  is_directed_quote a b' c' = true ->
  exists rest, s = String b' (String c' rest).
Proof.
  intros Hr Hq. destruct (is_directed_quote_shape _ _ _ Hq) as (Hb & Hc & _).
  destruct (replaceQuotes_head _ _ _ Hr Hb) as (s' & -> & Hr').
  symmetry in Hr'.
  destruct (replaceQuotes_head _ _ _ Hr' Hc) as (s'' & -> & _). eauto.
Qed.

Lemma replaceQuotes_step (a : ascii) (s' : string) :
  (exists b c rest, s' = String b (String c rest) /\ is_directed_quote a b c = true
                    /\ replaceQuotes (String a s')
                       = String (ascii_of_nat 34) (replaceQuotes rest))
  \/ ((forall b c rest, s' = String b (String c rest) -> is_directed_quote a b c = false)
      /\ replaceQuotes (String a s') = String a (replaceQuotes s')).
Proof.
  cbn [replaceQuotes]. destruct s' as [|b [|c rest]].
  - right. split; [intros; discriminate|reflexivity].
  - right. split; [intros; discriminate|reflexivity].
  - destruct (is_directed_quote a b c) eqn:E.
    + left. exists b, c, rest. auto.
    + right. split; [|reflexivity]. intros b0 c0 rest0 [= <- <- <-]. exact E.
Qed.

Lemma hasDirectedQuote_cons (a : ascii) (t : string) :
  hasDirectedQuote t = false ->
  (forall b c r, t = String b (String c r) -> is_directed_quote a b c = false) ->
  hasDirectedQuote (String a t) = false.
Proof.
  intros Ht Hq. cbn [hasDirectedQuote]. destruct t as [|b [|c r]]; try reflexivity.
  rewrite (Hq b c r eq_refl). exact Ht.
Qed.

Lemma replaceQuotes_bounded (n : nat) :
  forall s, (String.length s <= n)%nat ->
    hasDirectedQuote (replaceQuotes s) = false
    /\ (hasDirectedQuote s = false -> replaceQuotes s = s)
    /\ (String.length (replaceQuotes s) <= String.length s)%nat.
Proof.
  induction n as [|n IH]; intros s Hn.
  - destruct s; [|cbn in Hn; lia]. repeat split; reflexivity.
  - destruct s as [|a s']; [repeat split; reflexivity|].
    cbn [String.length] in Hn.
    destruct (replaceQuotes_step a s')
      as [(b & c & rest & -> & Hq & ->) | [Hq ->]].
    + cbn [String.length] in Hn.
      destruct (IH rest ltac:(lia)) as (Hno & _ & Hlen).
      split; [|split].
      * apply hasDirectedQuote_cons; [exact Hno|].
        intros. apply straight_quote_not_directed.
      * cbn [hasDirectedQuote]. rewrite Hq. discriminate.
      * cbn [String.length]. lia.
    + destruct (IH s' ltac:(lia)) as (Hno & Hid & Hlen).
      split; [|split].
      * apply hasDirectedQuote_cons; [exact Hno|].
        intros b c r Hr.
        destruct (is_directed_quote a b c) eqn:E; [|reflexivity].
        destruct (replaceQuotes_no_new_quote a b c s' r Hr E) as [rest Hs'].
        rewrite (Hq b c rest Hs') in E. discriminate E.
      * intros Hs. f_equal. apply Hid.
        cbn [hasDirectedQuote] in Hs. destruct s' as [|b [|c r]]; try reflexivity.
        apply orb_false_elim in Hs. apply Hs.
      * cbn [String.length]. lia.
Qed.

(** X18: the replacement leaves no directed quotation mark in the file
    string, changes nothing in a string without one, never lengthens the
    string, and is idempotent. *)
Theorem replaceQuotes_removes_all (s : string) :
  hasDirectedQuote (replaceQuotes s) = false
  /\ (hasDirectedQuote s = false -> replaceQuotes s = s)
  /\ (String.length (replaceQuotes s) <= String.length s)%nat
  /\ replaceQuotes (replaceQuotes s) = replaceQuotes s.
Proof.
  destruct (replaceQuotes_bounded (String.length s) s (le_n _)) as (Hno & Hid & Hlen).
  split; [exact Hno|]. split; [exact Hid|]. split; [exact Hlen|].
  apply (replaceQuotes_bounded (String.length (replaceQuotes s)) _ (le_n _)), Hno.
Qed.
